(** * vue-state-tree: the schema validator, the watch-path deriver and the
      mutation guard of [index.esm.js], embedded in Rocq.

    The JavaScript of [index.esm.js] is translated function by function.
    Thrown exceptions become the [Err] branch of [result]; code that mutates
    [this] or the caller's objects threads an explicit state. *)

From Stdlib Require Import ZArith Ascii String DecimalString.
From stdpp Require Import base option list strings gmap.

Local Open Scope Z_scope.
Local Open Scope string_scope.
Local Open Scope list_scope.

(** ** Exceptions *)

(** What the host raises by itself, as opposed to a [throw] of the source. *)
Inductive fault : Type :=
| NotAFunction                      (* calling a value that is not callable *)
| PropertyOfNullish (key : string)  (* [null.key] or [undefined.key] *)
| NotIterable                       (* [[...undefined]] *)
| NullishToObject                   (* [Object.entries(null)] *)
| ReduceOfEmptyArray.               (* [[].reduce(f)] without initial value *)

Inductive exn : Type :=
| Error (message : string)          (* [throw new Error(message)] *)
| TypeError (message : string)      (* [throw new TypeError(message)] *)
| HostTypeError (f : fault).        (* a TypeError raised by the host; its
                                       message is the host's own wording *)

Inductive result (A : Type) : Type :=
| Ok (a : A)
| Err (e : exn).
Arguments Ok {A} a.
Arguments Err {A} e.

Definition bind {A B} (r : result A) (k : A -> result B) : result B :=
  match r with
  | Ok a => k a
  | Err e => Err e
  end.

Declare Scope js_scope.
Delimit Scope js_scope with js.
Notation "x <- r ;; k" := (bind r (fun x => k))
  (at level 100, r at next level, right associativity) : js_scope.
Notation "r ;;; k" := (bind r (fun _ => k))
  (at level 100, right associativity) : js_scope.
Local Open Scope js_scope.

(** ** Data values

    The values a store holds: primitives, arrays and plain objects.  Numbers
    are the integers among the JavaScript numbers.  An object is the list of
    its own enumerable properties in enumeration order; inherited properties
    are not part of the model. *)

Inductive prim : Type :=
| Undefined
| Null
| Bool (b : bool)
| Num (n : Z)
| Str (s : string).

Unset Elimination Schemes.
Inductive value : Type :=
| VPrim (p : prim)
| VArr (elems : list value)
| VObj (props : list (string * value)).
Set Elimination Schemes.

Coercion VPrim : prim >-> value.

Definition prim_eqb (a b : prim) : bool :=
  match a, b with
  | Undefined, Undefined => true
  | Null, Null => true
  | Bool x, Bool y => Bool.eqb x y
  | Num x, Num y => Z.eqb x y
  | Str x, Str y => String.eqb x y
  | _, _ => false
  end.

(** [v === literal] for a primitive literal. *)
Definition strict_eq (v : value) (literal : prim) : bool :=
  match v with
  | VPrim p => prim_eqb p literal
  | _ => false
  end.

Definition truthy_prim (p : prim) : bool :=
  match p with
  | Undefined | Null => false
  | Bool b => b
  | Num n => negb (Z.eqb n 0)
  | Str s => negb (String.eqb s "")
  end.

Definition truthy (v : value) : bool :=
  match v with
  | VPrim p => truthy_prim p
  | _ => true
  end.

Inductive type_tag : Type :=
| TUndefined | TObject | TBoolean | TNumber | TString | TFunction.

Definition type_tag_eqb (a b : type_tag) : bool :=
  match a, b with
  | TUndefined, TUndefined | TObject, TObject | TBoolean, TBoolean
  | TNumber, TNumber | TString, TString | TFunction, TFunction => true
  | _, _ => false
  end.

Definition typeof_prim (p : prim) : type_tag :=
  match p with
  | Undefined => TUndefined
  | Null => TObject
  | Bool _ => TBoolean
  | Num _ => TNumber
  | Str _ => TString
  end.

Definition typeof (v : value) : type_tag :=
  match v with
  | VPrim p => typeof_prim p
  | VArr _ | VObj _ => TObject
  end.

Definition Array_isArray (v : value) : bool :=
  match v with
  | VArr _ => true
  | _ => false
  end.

(** [isObject]: [value && !Array.isArray(value) && typeof value === 'object'],
    read as a condition. *)
Definition isObject (v : value) : bool :=
  truthy v && negb (Array_isArray v) && type_tag_eqb (typeof v) TObject.

(** ** Strings of numbers, property keys *)

Definition string_of_nat (n : nat) : string :=
  NilZero.string_of_uint (Nat.to_uint n).

Definition string_of_Z (n : Z) : string :=
  NilZero.string_of_int (Z.to_int n).

(** A key is an array index when it is the canonical decimal of a number. *)
Definition parse_index (key : string) : option nat :=
  match NilZero.uint_of_string key with
  | Some u =>
      let n := Nat.of_uint u in
      if String.eqb (string_of_nat n) key then Some n else None
  | None => None
  end.

Fixpoint assoc {A} (key : string) (props : list (string * A)) : option A :=
  match props with
  | [] => None
  | (k, x) :: rest => if String.eqb k key then Some x else assoc key rest
  end.

(** [v[key]]: own properties of objects, [length] and the indices of arrays
    and strings; a missing property reads as [undefined]; reading a property
    of [null] or [undefined] is a host TypeError. *)
Definition get_prop (v : value) (key : string) : result value :=
  match v with
  | VPrim Undefined | VPrim Null => Err (HostTypeError (PropertyOfNullish key))
  | VPrim (Str s) =>
      if String.eqb key "length" then Ok (VPrim (Num (Z.of_nat (String.length s))))
      else match parse_index key with
           | Some i =>
               match String.get i s with
               | Some c => Ok (VPrim (Str (String c EmptyString)))
               | None => Ok (VPrim Undefined)
               end
           | None => Ok (VPrim Undefined)
           end
  | VPrim _ => Ok (VPrim Undefined)
  | VArr elems =>
      if String.eqb key "length" then Ok (VPrim (Num (Z.of_nat (length elems))))
      else match parse_index key with
           | Some i => Ok (default (VPrim Undefined) (elems !! i))
           | None => Ok (VPrim Undefined)
           end
  | VObj props => Ok (default (VPrim Undefined) (assoc key props))
  end.

(** ** [JSON.stringify] and template interpolation

    The host's serialiser on the values above.  [JSON_stringify] is [None]
    where the host returns [undefined]; [show] is what [${JSON.stringify(v)}]
    puts in a template literal. *)

Definition hex_digit (n : N) : ascii :=
  ascii_of_N (if (n <? 10)%N then 48 + n else 87 + n)%N.

Definition escape_char (c : ascii) : string :=
  let n := N_of_ascii c in
  if (n =? 34)%N then "\" +:+ String c EmptyString
  else if (n =? 92)%N then "\\"
  else if (n =? 8)%N then "\b"
  else if (n =? 9)%N then "\t"
  else if (n =? 10)%N then "\n"
  else if (n =? 12)%N then "\f"
  else if (n =? 13)%N then "\r"
  else if (n <? 32)%N then
    "\u00" +:+ String (hex_digit (n / 16)) (String (hex_digit (n mod 16)) EmptyString)
  else String c EmptyString.

Fixpoint escape (s : string) : string :=
  match s with
  | EmptyString => EmptyString
  | String c rest => escape_char c +:+ escape rest
  end.

Definition quote (s : string) : string :=
  String (ascii_of_N 34) (escape s +:+ String (ascii_of_N 34) EmptyString).

Definition JSON_stringify_prim (p : prim) : option string :=
  match p with
  | Undefined => None
  | Null => Some "null"
  | Bool true => Some "true"
  | Bool false => Some "false"
  | Num n => Some (string_of_Z n)
  | Str s => Some (quote s)
  end.

Fixpoint JSON_stringify (v : value) : option string :=
  match v with
  | VPrim p => JSON_stringify_prim p
  | VArr elems =>
      Some ("[" +:+ String.concat ","
              (List.map (fun x => default "null" (JSON_stringify x)) elems) +:+ "]")
  | VObj props =>
      Some ("{" +:+ String.concat ","
              ((fix members (ps : list (string * value)) : list string :=
                  match ps with
                  | [] => []
                  | (k, x) :: rest =>
                      match JSON_stringify x with
                      | Some s => (quote k +:+ ":" +:+ s) :: members rest
                      | None => members rest
                      end
                  end) props) +:+ "}")
  end.

Definition show (v : value) : string :=
  default "undefined" (JSON_stringify v).

(** ** Paths *)

Inductive segment : Type :=
| Key (k : string)     (* typeof el === 'string' *)
| Idx (i : nat).       (* typeof el === 'number' *)

Abbreviation path := (list segment).

(** A [path] argument can be missing: [arg(v)] passes no second argument. *)
Abbreviation path_arg := (option (list segment)).

(** [[...path, el]] *)
Definition spread (p : path_arg) (el : segment) : result path_arg :=
  match p with
  | Some segs => Ok (Some (segs ++ [el]))
  | None => Err (HostTypeError NotIterable)
  end.

(** The reducer of [stringifyPath]. *)
Definition stringifyPath_step (acc : string) (el : segment) : string :=
  match el with
  | Idx i => acc +:+ "[" +:+ string_of_nat i +:+ "]"
  | Key k => acc +:+ "." +:+ k
  end.

(** [path.reduce(step)]: the first element seeds the accumulator as it is.
    The result is only ever interpolated in a template literal, so it is
    given as that string. *)
Definition stringifyPath (p : path_arg) : result string :=
  match p with
  | None => Err (HostTypeError (PropertyOfNullish "reduce"))
  | Some [] => Err (HostTypeError ReduceOfEmptyArray)
  | Some (Key k :: rest) => Ok (foldl stringifyPath_step k rest)
  | Some (Idx i :: rest) => Ok (foldl stringifyPath_step (string_of_nat i) rest)
  end.

(** ** Schemas and the functions of [types]

    A schema node is whatever JavaScript value sits in the schema: a
    primitive (a falsy one is the "invalid schema" case), an array, an object
    given by its entries in [Object.keys] order, or a function.  The
    functions are the closures that [types] creates, and [custom] for a
    validator written by the user, which sees the value and the path and may
    throw. *)

Unset Elimination Schemes.
Inductive schema : Type :=
| SPrim (p : prim)
| SArr (elems : list schema)
| SObj (entries : list (string * schema))
| SFun (f : fn)
with fn : Type :=
| boolean_fn                                  (* v => typeof v === 'boolean' *)
| number_fn                                   (* v => typeof v === 'number' *)
| string_fn                                   (* v => typeof v === 'string' *)
| enum_fn (literals : list prim)              (* v => literals.some(...) *)
| maybeNull_schema_fn (anotherType : schema)  (* (v, path) => ... deepTypeCheck ... *)
| maybeNull_type_fn (anotherType : schema)    (* v => v === null || anotherType(v) *)
| model_fn (name : string)                    (* v => v._isVue && ... *)
| union_fn (args : list schema)               (* v => args.some(arg => arg(v)) *)
| custom (g : value -> path_arg -> result value).
Set Elimination Schemes.

Definition truthy_schema (s : schema) : bool :=
  match s with
  | SPrim p => truthy_prim p
  | _ => true
  end.

Definition typeof_schema (s : schema) : type_tag :=
  match s with
  | SPrim p => typeof_prim p
  | SArr _ | SObj _ => TObject
  | SFun _ => TFunction
  end.

Definition isArray_schema (s : schema) : bool :=
  match s with
  | SArr _ => true
  | _ => false
  end.

(** [isObject] on a schema node. *)
Definition isObject_schema (s : schema) : bool :=
  truthy_schema s && negb (isArray_schema s) && type_tag_eqb (typeof_schema s) TObject.

(** A nested schema: an object or an array node. *)
Definition nested_schema (s : schema) : bool :=
  match s with
  | SObj _ | SArr _ => true
  | _ => false
  end.

Definition is_undefined (v : value) : bool := strict_eq v Undefined.
Definition is_null (v : value) : bool := strict_eq v Null.

(** ** Array iteration *)

Section Iteration.
Context {A : Type}.

(** [arr.forEach((x, idx) => f(x, idx))]: a throw in the callback ends the
    loop. *)
Definition forEach_from (f : A -> nat -> result unit) : list A -> nat -> result unit :=
  fix go (l : list A) (idx : nat) : result unit :=
    match l with
    | [] => Ok tt
    | x :: rest => f x idx ;;; go rest (S idx)
    end.

Definition forEach (f : A -> nat -> result unit) (l : list A) : result unit :=
  forEach_from f l 0%nat.

(** [arr.some(x => f(x))] *)
Definition some (f : A -> result value) : list A -> result bool :=
  fix go (l : list A) : result bool :=
    match l with
    | [] => Ok false
    | x :: rest => r <- f x ;; if truthy r then Ok true else go rest
    end.
End Iteration.

(** ** [typeCheck], [deepTypeCheck] and the call of a schema function *)

Section Calls.
(** How a closure of [types] runs; tied to [call] below. *)
Variable call : fn -> value -> path_arg -> result value.

(** [validator(v, path)] for whatever value [validator] is. *)
Definition apply_with (validator : schema) (v : value) (path : path_arg) : result value :=
  match validator with
  | SFun f => call f v path
  | _ => Err (HostTypeError NotAFunction)
  end.

Definition typeCheck_with (value : value) (validator : schema) (path : path_arg)
  : result unit :=
  r <- apply_with validator value path ;;
  if truthy r then Ok tt
  else
    sp <- stringifyPath path ;;
    Err (TypeError ("check failed for data property at path " +:+ sp
                    +:+ ". Got: " +:+ show value)).
End Calls.

Fixpoint deepTypeCheck (dataStore : value) (schema : schema) (path : path_arg)
    {struct schema} : result unit :=
  if negb (truthy_schema schema) then
    sp <- stringifyPath path ;;
    Err (Error ("invalid schema property for path: " +:+ sp))
  else if is_undefined dataStore then
    sp <- stringifyPath path ;;
    Err (TypeError ("undefined data property at path: " +:+ sp))
  else
    match schema with
    | SArr elems =>
        match dataStore with
        | VArr items =>
            match elems with
            | s0 :: _ =>
                if truthy_schema s0 && type_tag_eqb (typeof_schema s0) TObject then
                  forEach (fun value idx =>
                             p <- spread path (Idx idx) ;;
                             deepTypeCheck value s0 p) items
                else if truthy_schema s0 && type_tag_eqb (typeof_schema s0) TFunction then
                  forEach (fun value idx =>
                             p <- spread path (Idx idx) ;;
                             typeCheck_with call value s0 p) items
                else Ok tt
            | [] => Ok tt
            end
        | _ =>
            sp <- stringifyPath path ;;
            Err (TypeError ("expected array for data property at path " +:+ sp
                            +:+ ", Got: " +:+ show dataStore))
        end
    | SObj entries =>
        forEach (fun '(key, sub) _ =>
                   x <- get_prop dataStore key ;;
                   if isObject_schema sub && negb (isObject x) then
                     p <- spread path (Key key) ;;
                     sp <- stringifyPath p ;;
                     Err (TypeError ("expected object for data property at path " +:+ sp
                                     +:+ ", Got: " +:+ show x))
                   else
                     p <- spread path (Key key) ;;
                     deepTypeCheck x sub p) entries
    | _ => typeCheck_with call dataStore schema path
    end
with call (f : fn) (v : value) (path : path_arg) {struct f} : result value :=
  match f with
  | boolean_fn => Ok (VPrim (Bool (type_tag_eqb (typeof v) TBoolean)))
  | number_fn => Ok (VPrim (Bool (type_tag_eqb (typeof v) TNumber)))
  | string_fn => Ok (VPrim (Bool (type_tag_eqb (typeof v) TString)))
  | enum_fn literals => Ok (VPrim (Bool (existsb (strict_eq v) literals)))
  | maybeNull_schema_fn anotherType =>
      if is_null v then Ok (VPrim (Bool true))
      else deepTypeCheck v anotherType path ;;; Ok (VPrim (Bool true))
  | maybeNull_type_fn anotherType =>
      if is_null v then Ok (VPrim (Bool true))
      else apply_with call anotherType v None
  | model_fn name =>
      marker <- get_prop v "_isVue" ;;
      if truthy marker then
        options <- get_prop v "$options" ;;
        n <- get_prop options "name" ;;
        Ok (VPrim (Bool (strict_eq n (Str name))))
      else Ok marker
  | union_fn args =>
      b <- some (fun arg => apply_with call arg v None) args ;;
      Ok (VPrim (Bool b))
  | custom g => g v path
  end.

Definition apply := apply_with call.
Definition typeCheck := typeCheck_with call.

(** ** The exported [types] *)

Module types.
Definition boolean : schema := SFun boolean_fn.
Definition number : schema := SFun number_fn.
Definition string : schema := SFun string_fn.

Definition enum (literals : list prim) : schema := SFun (enum_fn literals).

Definition maybeNull (anotherType : schema) : result schema :=
  if negb (truthy_schema anotherType) then
    Err (TypeError "You must pass an object or type function to maybeNull()")
  else if type_tag_eqb (typeof_schema anotherType) TObject then
    Ok (SFun (maybeNull_schema_fn anotherType))
  else Ok (SFun (maybeNull_type_fn anotherType)).

Definition model (name : String.string) : schema := SFun (model_fn name).

Definition union (args : list schema) : schema := SFun (union_fn args).
End types.

(** A constructed model as a data value: the marker the host sets on its
    instances and the options they were built from. *)
Definition vue_instance (name : string) (fields : list (string * value)) : value :=
  VObj (("_isVue", VPrim (Bool true))
        :: ("$options", VObj [("name", VPrim (Str name))])
        :: fields).

(** ** [getWatchProperties] *)

(** [arr.reduce(f, init)] with a callback that may throw. *)
Definition reduce {A B} (f : B -> A -> result B) : list A -> B -> result B :=
  fix go (l : list A) (acc : B) : result B :=
    match l with
    | [] => Ok acc
    | x :: rest => acc' <- f acc x ;; go rest acc'
    end.

(** [Object.entries(val)] of a schema value: the entries of an object, the
    indexed elements of an array or of a string, nothing for the other
    values, and a host TypeError for [null] and [undefined]. *)
Definition Object_entries (val : schema) : result (list (string * schema)) :=
  match val with
  | SObj entries => Ok entries
  | SArr elems => Ok (imap (fun i e => (string_of_nat i, e)) elems)
  | SPrim Undefined | SPrim Null => Err (HostTypeError NullishToObject)
  | SPrim (Str s) =>
      Ok (imap (fun i c => (string_of_nat i, SPrim (Str (String c EmptyString))))
            (list_ascii_of_string s))
  | SPrim _ | SFun _ => Ok []
  end.

(** [reducer], the function that [getReducerForPath(path)] returns, applied
    to [acc] and the entry [[key, val]]. *)
Fixpoint reducer (path : list string) (acc : list string) (key : string) (val : schema)
    {struct val} : result (list string) :=
  match val with
  | SObj entries =>
      reduce (fun acc' '(k, v) => reducer (path ++ [key]) acc' k v) entries acc
  | SPrim Null => Err (HostTypeError NullishToObject)
  | _ => Ok (acc ++ [String.concat "." (path ++ [key])])
  end.

Definition getReducerForPath (path : list string) (acc : list string)
    (entry : string * schema) : result (list string) :=
  reducer path acc (fst entry) (snd entry).

Definition getWatchProperties (schema : schema) : result (list string) :=
  entries <- Object_entries schema ;;
  reduce (getReducerForPath []) entries [].

(** The derivation as the specification words it: an object sub-schema
    contributes the paths of its entries under the extended prefix, any other
    value contributes the one dot-joined path. *)
Fixpoint watch_paths (path : list string) (key : string) (val : schema) {struct val}
    : list string :=
  match val with
  | SObj entries => flat_map (fun '(k, v) => watch_paths (path ++ [key]) k v) entries
  | _ => [String.concat "." (path ++ [key])]
  end.

(** No [null] among the values reached through nested objects. *)
Fixpoint no_null_node (val : schema) : bool :=
  match val with
  | SPrim Null => false
  | SObj entries => forallb (fun '(_, v) => no_null_node v) entries
  | _ => true
  end.

(** ** The instance seen by its functions, and the mutation guard

    [this._mutex] is [Absent] until [model] sets it; arithmetic on an absent
    or not-a-number counter gives [NaN], as in the host. *)

Inductive mutex : Type :=
| Absent
| NaN
| Count (n : Z).

Record instance : Type := Instance {
  _mutex : mutex;
  fields : list (string * value)
}.

Definition set_mutex (m : mutex) (this : instance) : instance :=
  {| _mutex := m; fields := fields this |}.

(** [this._mutex += d] *)
Definition mutex_add (d : Z) (this : instance) : instance :=
  set_mutex (match _mutex this with
             | Count n => Count (n + d)
             | _ => NaN
             end) this.

(** [this[key] = x] on a field of the instance. *)
Fixpoint put (key : string) (x : value) (props : list (string * value))
    : list (string * value) :=
  match props with
  | [] => [(key, x)]
  | (k, y) :: rest =>
      if String.eqb k key then (k, x) :: rest else (k, y) :: put key x rest
  end.

Definition assign (key : string) (x : value) (this : instance) : instance :=
  {| _mutex := _mutex this; fields := put key x (fields this) |}.

(** A method or a setter: from the arguments and the receiver to the
    returned value (or the exception) and the receiver afterwards. *)
Definition jsfun : Type := list value -> instance -> result value * instance.

(** [function(...args) { this._mutex += 1; return value.apply(this, args) }] *)
Definition wrapper (value : jsfun) : jsfun :=
  fun args this => value args (mutex_add 1 this).

(** [watchCallback], closed over [vm.name]. *)
Definition watchCallback (name : string) (this : instance) : result value * instance :=
  match _mutex this with
  | Count n =>
      if Z.eqb n 0 then
        (Err (Error (name +:+ " store is immutable! Updates must happen within a method or computed setter.")),
         this)
      else if Z.ltb n 0 then
        (Err (Error ("Somehow the mutex is off in " +:+ name +:+ ". This should never happen.")),
         this)
      else (Ok (VPrim Undefined), mutex_add (-1) this)
  | _ => (Ok (VPrim Undefined), mutex_add (-1) this)
  end.

(** ** The objects of the caller

    [storeOptions.methods] and the [{get, set}] objects of
    [storeOptions.computed] are objects that [model] writes to; they live in
    a heap and are named by their location, so that what [model] writes is
    what the caller sees afterwards. *)

Abbreviation loc := nat.

Record accessor : Type := Accessor {
  get : option jsfun;
  set : option jsfun
}.

Inductive computed_value : Type :=
| CFunction (getter : jsfun)     (* typeof value === 'function' *)
| CObject (l : loc).             (* typeof value === 'object' *)

Record heap : Type := Heap {
  accessors : gmap loc accessor;
  method_maps : gmap loc (gmap string jsfun)
}.

Module storeOptions.
Record t : Type := Make {
  name : option string;
  data : value;
  computed : option (gmap string computed_value);
  watch : option (gmap string jsfun);
  methods : option loc;
  schema : option schema
}.
End storeOptions.

Module modelOptions.
Record t : Type := Make { immutable : option bool }.
End modelOptions.

Module vm.
Record t : Type := Make {
  name : string;
  data : value;
  computed : gmap string computed_value;
  watch : gmap string jsfun;
  methods : loc
}.
End vm.

Inductive watcher : Type :=
| MutexWatcher                   (* [watchCallback] *)
| TypeCheckWatcher.              (* [value => deepTypeCheck(value, get(schema, prop), ...)] *)

Record component : Type := Component {
  options : vm.t;
  state : instance;
  watchers : list (string * watcher)
}.

(** [new Vue(vm)], as far as [model] relies on it. *)
Definition new_Vue (options : vm.t) : component :=
  {| options := options;
     state := {| _mutex := Absent;
                 fields := match vm.data options with
                           | VObj props => props
                           | _ => []
                           end |};
     watchers := [] |}.

Definition watch (c : component) (propExpression : string) (w : watcher) : component :=
  {| options := options c; state := state c;
     watchers := watchers c ++ [(propExpression, w)] |}.

(** [value.set = function(...args) {...}] on the accessor object at [l],
    when it has a [set]. *)
Definition wrap_setter (a : accessor) : accessor :=
  {| get := get a; set := wrapper <$> set a |}.

(** The loop over [Object.entries(vm.computed)]. *)
Definition wrap_computed (computed : gmap string computed_value)
    (acc : gmap loc accessor) : gmap loc accessor :=
  map_fold (fun _ value acc =>
              match value with
              | CObject l => alter wrap_setter l acc
              | CFunction _ => acc
              end) acc computed.

(** No two keys of the computed mapping hold the same accessor object. *)
Definition alias_free (computed : gmap string computed_value) : Prop :=
  forall k k' l,
    computed !! k = Some (CObject l) -> computed !! k' = Some (CObject l) -> k = k'.

(** The loop over [Object.entries(vm.methods)]: each entry of the snapshot is
    written back wrapped. *)
Definition wrap_methods (methods : gmap string jsfun) : gmap string jsfun :=
  map_fold (fun key value acc => <[key := wrapper value]> acc) methods methods.

Definition install_guard (options : vm.t) (h : heap) : heap :=
  {| accessors := wrap_computed (vm.computed options) (accessors h);
     method_maps := alter wrap_methods (vm.methods options) (method_maps h) |}.

(** [{}] *)
Definition alloc_methods (h : heap) : loc * heap :=
  let l := fresh (dom (method_maps h)) in
  (l, {| accessors := accessors h; method_maps := <[l := ∅]> (method_maps h) |}).

Definition has_schema (so : storeOptions.t) : option schema :=
  match storeOptions.schema so with
  | Some s => if truthy_schema s then Some s else None
  | None => None
  end.

(** ** [model]

    [production] is [process.env.NODE_ENV === 'production']. *)
Definition model (production : bool) (so : storeOptions.t) (mo : modelOptions.t)
    (h : heap) : result component * heap :=
  if negb (truthy (storeOptions.data so)) then
    (Err (Error "Undefined model data."), h)
  else
    match get_prop (storeOptions.data so) "_isVue" with
    | Err e => (Err e, h)
    | Ok marker =>
        if truthy marker then
          (Err (Error "Attempting to create a model from a model"), h)
        else
          let name :=
            match storeOptions.name so with
            | Some n => if String.eqb n "" then "ANONYMOUS_MODEL" else n
            | None => "ANONYMOUS_MODEL"
            end in
          let '(methods, h) :=
            match storeOptions.methods so with
            | Some l => (l, h)
            | None => alloc_methods h
            end in
          let vm :=
            {| vm.name := name;
               vm.data := storeOptions.data so;
               vm.computed := default ∅ (storeOptions.computed so);
               vm.watch := default ∅ (storeOptions.watch so);
               vm.methods := methods |} in
          match (match has_schema so with
                 | Some s => if production then Ok [] else getWatchProperties s
                 | None => Ok []
                 end) with
          | Err e => (Err e, h)
          | Ok watchProps =>
              let '(component, h) :=
                if negb (bool_decide (modelOptions.immutable mo = Some false))
                   && negb production
                then
                  let h := install_guard vm h in
                  let c := new_Vue vm in
                  let c := {| options := options c;
                              state := set_mutex (Count 0) (state c);
                              watchers := watchers c |} in
                  (foldl (fun c propExpression => watch c propExpression MutexWatcher)
                         c watchProps, h)
                else (new_Vue vm, h) in
              match has_schema so with
              | Some s =>
                  if production then (Ok component, h)
                  else
                    match deepTypeCheck (vm.data vm) s (Some [Key ("<" +:+ name +:+ ">")]) with
                    | Err e => (Err e, h)
                    | Ok _ =>
                        (Ok (foldl (fun c propExpression =>
                                      watch c propExpression TypeCheckWatcher)
                                   component watchProps), h)
                    end
              | None => (Ok component, h)
              end
          end
    end.

(** [model] gets past the checks of its input and the derivation of the
    watched paths, so that it reaches the installation of the guard. *)
Definition constructible (so : storeOptions.t) : Prop :=
  truthy (storeOptions.data so) = true
  /\ (exists marker,
        get_prop (storeOptions.data so) "_isVue" = Ok marker /\ truthy marker = false)
  /\ (forall s, has_schema so = Some s -> exists watchProps, getWatchProperties s = Ok watchProps).

(** ** Runs of guarded calls and change notifications *)

Inductive event : Type :=
| Call (f : jsfun) (args : list value)   (* a wrapped method or setter is called *)
| Notify.                                (* the host runs [watchCallback] *)

Definition is_call (ev : event) : bool :=
  match ev with
  | Call _ _ => true
  | Notify => false
  end.

Definition calls (evs : list event) : nat := length (filter (fun ev => is_call ev = true) evs).

(** The instance after the events, and how many notifications did not
    raise. *)
Fixpoint run (name : string) (evs : list event) (this : instance) : instance * nat :=
  match evs with
  | [] => (this, 0%nat)
  | Call f args :: rest => run name rest (snd (wrapper f args this))
  | Notify :: rest =>
      match watchCallback name this with
      | (Ok _, this') => let '(final, k) := run name rest this' in (final, S k)
      | (Err _, this') => run name rest this'
      end
  end.

(** A function that leaves the counter alone. *)
Definition keeps_mutex (f : jsfun) : Prop :=
  forall args this, _mutex (snd (f args this)) = _mutex this.

Definition guarded (ev : event) : Prop :=
  match ev with
  | Call f _ => keeps_mutex f
  | Notify => True
  end.

(** ** Structural match, as the specification words it

    A leaf value satisfies its leaf predicate when the call returns a truthy
    value; an object node meets an object value, whose property under each
    schema key matches the sub-schema; an array node meets an array value
    whose elements match the element sub-schema [schema[0]]. *)

Section All.
Context {A : Type} (P : A -> Prop).

Definition All : list A -> Prop :=
  fix go (l : list A) : Prop :=
    match l with
    | [] => True
    | x :: rest => P x /\ go rest
    end.
End All.

Definition satisfies (validator : schema) (v : value) (p : path) : Prop :=
  exists r, apply validator v (Some p) = Ok r /\ truthy r = true.

Fixpoint matches (s : schema) (v : value) (p : path) {struct s} : Prop :=
  match s with
  | SObj entries =>
      exists props, v = VObj props /\
        All (fun '(key, sub) =>
               matches sub (default (VPrim Undefined) (assoc key props)) (p ++ [Key key]))
            entries
  | SArr elems =>
      exists items, v = VArr items /\
        match elems with
        | s0 :: _ => forall i x, items !! i = Some x -> matches s0 x (p ++ [Idx i])
        | [] => True
        end
  | _ => satisfies s v p
  end.

(** Well-formed: no falsy node anywhere in the schema, the schemas held by
    the closures of [types] included. *)
Fixpoint wf_schema (s : schema) : bool :=
  truthy_schema s &&
  match s with
  | SPrim _ => true
  | SArr elems => forallb wf_schema elems
  | SObj entries => forallb (fun '(_, sub) => wf_schema sub) entries
  | SFun f => wf_fn f
  end
with wf_fn (f : fn) : bool :=
  match f with
  | maybeNull_schema_fn anotherType => wf_schema anotherType
  | maybeNull_type_fn anotherType => wf_schema anotherType
  | union_fn args => forallb wf_schema args
  | _ => true
  end.

(** The values that [deepTypeCheck] itself receives at the leaves (at the
    root, under an object key, or as an element when [schema[0]] is an
    object or an array) are not [undefined].  Elements of an array whose
    [schema[0]] is a function go to [typeCheck] directly. *)
Fixpoint defined_leaves (s : schema) (v : value) {struct s} : Prop :=
  match s with
  | SObj entries =>
      All (fun '(key, sub) =>
             forall x, get_prop v key = Ok x -> defined_leaves sub x) entries
  | SArr (s0 :: _) =>
      if type_tag_eqb (typeof_schema s0) TObject
      then forall items x, v = VArr items -> x ∈ items -> defined_leaves s0 x
      else True
  | SArr [] => True
  | _ => v <> VPrim Undefined
  end.

(** ** The first mismatch in depth-first, schema-key order

    [first_mismatch s v p q]: validating [v] against [s] from path [p], the
    first place where the data departs from the schema is [q].  The places
    are: an [undefined] value; a leaf whose predicate returns a falsy value;
    a value that is not an array at an array node; a property that is not an
    object under a key whose sub-schema is an object.  Everything before it
    in the traversal matches. *)

Definition rejects (validator : schema) (v : value) (p : path) : Prop :=
  exists r, apply validator v (Some p) = Ok r /\ truthy r = false.

Definition validates (s : schema) (v : value) (p : path) : Prop :=
  matches s v p /\ defined_leaves s v.

Inductive first_mismatch : schema -> value -> path -> path -> Prop :=
| fm_undefined s p :
    first_mismatch s (VPrim Undefined) p p
| fm_leaf f v p :
    v <> VPrim Undefined ->
    rejects (SFun f) v p ->
    first_mismatch (SFun f) v p p
| fm_nullable inner v p q :
    v <> VPrim Null ->
    first_mismatch inner v p q ->
    first_mismatch (SFun (maybeNull_schema_fn inner)) v p q
| fm_not_array elems v p :
    v <> VPrim Undefined ->
    Array_isArray v = false ->
    first_mismatch (SArr elems) v p p
| fm_element s0 rest before x after p q :
    typeof_schema s0 = TObject ->
    (forall i y, before !! i = Some y -> validates s0 y (p ++ [Idx i])) ->
    first_mismatch s0 x (p ++ [Idx (length before)]) q ->
    first_mismatch (SArr (s0 :: rest)) (VArr (before ++ x :: after)) p q
| fm_flat_element f rest before x after p :
    (forall i y, before !! i = Some y -> satisfies (SFun f) y (p ++ [Idx i])) ->
    rejects (SFun f) x (p ++ [Idx (length before)]) ->
    first_mismatch (SArr (SFun f :: rest)) (VArr (before ++ x :: after)) p
      (p ++ [Idx (length before)])
| fm_flat_nullable inner rest before x after p q :
    (forall i y, before !! i = Some y ->
                 satisfies (SFun (maybeNull_schema_fn inner)) y (p ++ [Idx i])) ->
    x <> VPrim Null ->
    first_mismatch inner x (p ++ [Idx (length before)]) q ->
    first_mismatch (SArr (SFun (maybeNull_schema_fn inner) :: rest))
      (VArr (before ++ x :: after)) p q
| fm_not_object before key sub after props p :
    isObject_schema sub = true ->
    All (fun '(k, s') =>
           validates s' (default (VPrim Undefined) (assoc k props)) (p ++ [Key k])) before ->
    isObject (default (VPrim Undefined) (assoc key props)) = false ->
    first_mismatch (SObj (before ++ (key, sub) :: after)) (VObj props) p (p ++ [Key key])
| fm_property before key sub after props p q :
    All (fun '(k, s') =>
           validates s' (default (VPrim Undefined) (assoc k props)) (p ++ [Key k])) before ->
    first_mismatch sub (default (VPrim Undefined) (assoc key props)) (p ++ [Key key]) q ->
    first_mismatch (SObj (before ++ (key, sub) :: after)) (VObj props) p q.

(** [msg] holds [part] as a substring. *)
Definition contains (msg part : string) : Prop :=
  exists pre post, msg = pre +:+ part +:+ post.

(** The message of an error thrown by the source. *)
Definition message_of (e : exn) : option string :=
  match e with
  | Error m | TypeError m => Some m
  | HostTypeError _ => None
  end.

(** [r] is a thrown error whose message holds the rendering of [q]. *)
Definition reports (r : result unit) (q : path) : Prop :=
  exists e msg sp,
    r = Err e /\ message_of e = Some msg /\
    stringifyPath (Some q) = Ok sp /\ contains msg sp.

(** Induction over the tree of a schema: the sub-schemas of an array or an
    object node are covered by the hypothesis, functions are leaves. *)
Section schema_tree_ind.
Variable P : schema -> Prop.
Hypothesis Hprim : forall p, P (SPrim p).
Hypothesis Harr : forall elems, Forall P elems -> P (SArr elems).
Hypothesis Hobj : forall entries, Forall (fun e => P (snd e)) entries -> P (SObj entries).
Hypothesis Hfun : forall f, P (SFun f).

Fixpoint schema_tree_ind (s : schema) : P s :=
  match s with
  | SPrim p => Hprim p
  | SArr elems =>
      Harr elems
        ((fix go (l : list schema) : Forall P l :=
            match l with
            | [] => List.Forall_nil P
            | x :: rest => List.Forall_cons P x rest (schema_tree_ind x) (go rest)
            end) elems)
  | SObj entries =>
      Hobj entries
        ((fix go (l : list (string * schema)) : Forall (fun e => P (snd e)) l :=
            match l with
            | [] => List.Forall_nil _
            | e :: rest => List.Forall_cons _ e rest (schema_tree_ind (snd e)) (go rest)
            end) entries)
  | SFun f => Hfun f
  end.
End schema_tree_ind.

(** ** Data of the worked examples *)

Definition user_schema : schema := SObj [("id", types.number)].
Definition user_data : value :=
  VObj [("id", VPrim (Num 1)); ("name", VPrim (Str "Joe Armstrong"))].

Definition optional_schema : schema :=
  SObj [("nickname", types.union [types.enum [Undefined]; types.string])].

(** The book model of the documentation, after [addPublisher] was given a
    publisher without [id]. *)
Definition book_schema : schema :=
  SObj [("publishers", SArr [SObj [("id", types.string); ("name", types.string)]])].

Definition book_data : value :=
  VObj [("publishers",
         VArr [VObj [("id", VPrim (Str "b0ad3660")); ("name", VPrim (Str "First Second Books"))];
               VObj [("name", VPrim (Str "Jay Thomas"))]])].

Definition items_schema : schema := SObj [("items", SArr [SObj []])].

Definition created_schema : schema :=
  SObj [("at", types.string); ("by", types.string)].

Definition created_data : value :=
  VObj [("id", VPrim (Str "37848de6")); ("created", VPrim Null)].

Definition watch_example : schema :=
  SObj [("a", SObj [("b", types.string)]);
        ("c", SArr [SObj [("d", types.string)]]);
        ("e", types.string)].

(** [setFirstName(value) { this.firstName = value }] of the documentation. *)
Definition setFirstName : jsfun :=
  fun args this =>
    (Ok (VPrim Undefined),
     assign "firstName" (default (VPrim Undefined) (head args)) this).

(** The programmer model of the documentation. *)
Definition setFullName : jsfun :=
  fun args this =>
    (Ok (VPrim Undefined),
     assign "fullName" (default (VPrim Undefined) (head args)) this).

Definition getFullName : jsfun :=
  fun _ this => (Ok (default (VPrim Undefined) (assoc "fullName" (fields this))), this).

Definition programmer_computed : gmap string computed_value :=
  {[ "fullName" := CObject 0%nat ]}.

Definition programmer_heap : heap :=
  {| accessors := {[ 0%nat := {| get := Some getFullName; set := Some setFullName |} ]};
     method_maps := {[ 1%nat := {[ "setFirstName" := setFirstName ]} ]} |}.

Definition programmer : storeOptions.t :=
  {| storeOptions.name := Some "programmer";
     storeOptions.data :=
       VObj [("firstName", VPrim (Str "Brian")); ("lastName", VPrim (Str "Kernighan"))];
     storeOptions.computed := Some programmer_computed;
     storeOptions.watch := None;
     storeOptions.methods := Some 1%nat;
     storeOptions.schema :=
       Some (SObj [("firstName", types.string); ("lastName", types.string)]) |}.

Definition programmer_vm : vm.t :=
  {| vm.name := "programmer"; vm.data := storeOptions.data programmer;
     vm.computed := programmer_computed; vm.watch := ∅; vm.methods := 1%nat |}.

(** ** Further definitions: the watcher of the post-instantiation check,
       fragments of schemas, key lists *)

(** The callback that [model] registers for [propExpression] after the
    pre-flight check.  [get] is the [get] of lodash, which the source
    imports; it is taken as given. *)
Section Watcher.
Variable get : schema -> string -> schema.

Definition typeCheckWatcher (schema : schema) (name propExpression : string)
    (value : value) : result unit :=
  deepTypeCheck value (get schema propExpression)
    (Some [Key ("<" +:+ name +:+ ">"); Key propExpression]).
End Watcher.

(** Schemas in which an array node has no [schema[0]] or a function there:
    every object node below the root then sits under an object key. *)
Fixpoint key_checked (s : schema) : bool :=
  match s with
  | SObj entries => forallb (fun '(_, sub) => key_checked sub) entries
  | SArr [] => true
  | SArr (SFun _ :: _) => true
  | SArr _ => false
  | _ => true
  end.

(** No validator written by the user where [deepTypeCheck] hands on its
    path. *)
Fixpoint path_blind (s : schema) : bool :=
  match s with
  | SPrim _ => true
  | SArr elems => forallb path_blind elems
  | SObj entries => forallb (fun '(_, sub) => path_blind sub) entries
  | SFun f => path_blind_fn f
  end
with path_blind_fn (f : fn) : bool :=
  match f with
  | maybeNull_schema_fn anotherType => path_blind anotherType
  | custom _ => false
  | _ => true
  end.

(** Two paths with the same rendering. *)
Definition same_rendering (p p' : path) : Prop :=
  exists sp, stringifyPath (Some p) = Ok sp /\ stringifyPath (Some p') = Ok sp.

(** Induction over a schema that also enters the schema held by
    [maybeNull]. *)
Section schema_nullable_ind.
Variable P : schema -> Prop.
Hypothesis Hprim : forall p, P (SPrim p).
Hypothesis Harr : forall elems, Forall P elems -> P (SArr elems).
Hypothesis Hobj : forall entries, Forall (fun e => P (snd e)) entries -> P (SObj entries).
Hypothesis Hnullable : forall inner, P inner -> P (SFun (maybeNull_schema_fn inner)).
Hypothesis Hfun : forall f, (forall inner, f <> maybeNull_schema_fn inner) -> P (SFun f).

Fixpoint schema_nullable_ind (s : schema) : P s :=
  match s with
  | SPrim p => Hprim p
  | SArr elems =>
      Harr elems
        ((fix go (l : list schema) : Forall P l :=
            match l with
            | [] => List.Forall_nil P
            | x :: rest => List.Forall_cons P x rest (schema_nullable_ind x) (go rest)
            end) elems)
  | SObj entries =>
      Hobj entries
        ((fix go (l : list (string * schema)) : Forall (fun e => P (snd e)) l :=
            match l with
            | [] => List.Forall_nil _
            | e :: rest => List.Forall_cons _ e rest (schema_nullable_ind (snd e)) (go rest)
            end) entries)
  | SFun f =>
      match f as f0 return P (SFun f0) with
      | maybeNull_schema_fn inner => Hnullable inner (schema_nullable_ind inner)
      | boolean_fn => Hfun boolean_fn (fun _ H => ltac:(discriminate H))
      | number_fn => Hfun number_fn (fun _ H => ltac:(discriminate H))
      | string_fn => Hfun string_fn (fun _ H => ltac:(discriminate H))
      | enum_fn l => Hfun (enum_fn l) (fun _ H => ltac:(discriminate H))
      | maybeNull_type_fn a => Hfun (maybeNull_type_fn a) (fun _ H => ltac:(discriminate H))
      | model_fn n => Hfun (model_fn n) (fun _ H => ltac:(discriminate H))
      | union_fn a => Hfun (union_fn a) (fun _ H => ltac:(discriminate H))
      | custom g => Hfun (custom g) (fun _ H => ltac:(discriminate H))
      end
  end.
End schema_nullable_ind.

(** A key without a dot. *)
Fixpoint dot_free (k : string) : bool :=
  match k with
  | EmptyString => true
  | String c rest => negb (Ascii.eqb c ".") && dot_free rest
  end.

(** At every object node the keys are distinct and without dots. *)
Fixpoint plain_keys (val : schema) : Prop :=
  match val with
  | SObj entries =>
      NoDup (map fst entries)
      /\ Forall (fun k => dot_free k = true) (map fst entries)
      /\ All (fun '(_, v) => plain_keys v) entries
  | _ => True
  end.

(** The keys from the entry [key] down to each value that is not an object,
    in traversal order. *)
Fixpoint leaf_keys (key : string) (val : schema) : list (list string) :=
  match val with
  | SObj entries => map (cons key) (flat_map (fun '(k, v) => leaf_keys k v) entries)
  | _ => [[key]]
  end.

(** A schema with a [null] under a nested object, and a store built on it. *)
Definition null_schema : schema :=
  SObj [("id", types.number); ("address", SObj [("city", SPrim Null)])].

Definition null_store : storeOptions.t :=
  {| storeOptions.name := Some "user";
     storeOptions.data := VObj [("id", VPrim (Num 1))];
     storeOptions.computed := None;
     storeOptions.watch := None;
     storeOptions.methods := Some 1%nat;
     storeOptions.schema := Some null_schema |}.

(** A key with a dot beside the nested keys it spells. *)
Definition dotted_schema : schema :=
  SObj [("a", SObj [("b", types.string)]); ("a.b", types.string)].

(** [storeOptions.name || `ANONYMOUS_MODEL`] *)
Definition vm_name (so : storeOptions.t) : string :=
  match storeOptions.name so with
  | Some n => if String.eqb n "" then "ANONYMOUS_MODEL" else n
  | None => "ANONYMOUS_MODEL"
  end.

(** The same store options with another [schema] property. *)
Definition with_schema (s : option schema) (so : storeOptions.t) : storeOptions.t :=
  {| storeOptions.name := storeOptions.name so;
     storeOptions.data := storeOptions.data so;
     storeOptions.computed := storeOptions.computed so;
     storeOptions.watch := storeOptions.watch so;
     storeOptions.methods := storeOptions.methods so;
     storeOptions.schema := s |}.

(** [model] passes its two checks of [storeOptions.data]. *)
Definition plain_data (so : storeOptions.t) : Prop :=
  truthy (storeOptions.data so) = true
  /\ exists marker,
       get_prop (storeOptions.data so) "_isVue" = Ok marker /\ truthy marker = false.

(** The heap after [k] calls of [model] on the same store options. *)
Definition model_again (k : nat) (so : storeOptions.t) (mo : modelOptions.t) (h : heap)
    : heap :=
  Nat.iter k (fun h => snd (model false so mo h)) h.

(** The counter holds a number. *)
Definition is_count (m : mutex) : bool :=
  match m with
  | Count _ => true
  | _ => false
  end.

(** The programmer store of the documentation, with a last name that is
    not a string. *)
Definition programmer_invalid : storeOptions.t :=
  {| storeOptions.name := Some "programmer";
     storeOptions.data :=
       VObj [("firstName", VPrim (Str "Brian")); ("lastName", VPrim (Num 7))];
     storeOptions.computed := Some programmer_computed;
     storeOptions.watch := None;
     storeOptions.methods := Some 1%nat;
     storeOptions.schema :=
       Some (SObj [("firstName", types.string); ("lastName", types.string)]) |}.

(** A store without [methods]. *)
Definition bare_store : storeOptions.t :=
  {| storeOptions.name := None;
     storeOptions.data := user_data;
     storeOptions.computed := None;
     storeOptions.watch := None;
     storeOptions.methods := None;
     storeOptions.schema := Some user_schema |}.

(** The check returned instead of raising. *)
Definition passes {A} (r : result A) : bool :=
  match r with
  | Ok _ => true
  | Err _ => false
  end.

(** A validator made of [boolean], [number], [string], [enum], and of
    [maybeNull] and [union] over such validators. *)
Fixpoint plain_validator (s : schema) : bool :=
  match s with
  | SFun f => plain_fn f
  | _ => false
  end
with plain_fn (f : fn) : bool :=
  match f with
  | boolean_fn | number_fn | string_fn | enum_fn _ => true
  | maybeNull_type_fn anotherType => plain_validator anotherType
  | union_fn args => forallb plain_validator args
  | _ => false
  end.

(** Induction over a validator that enters the arguments of [union] and of
    [maybeNull] on a type function. *)
Section validator_ind.
Variable P : schema -> Prop.
Hypothesis Hunion : forall args, Forall P args -> P (SFun (union_fn args)).
Hypothesis Hnullable : forall inner, P inner -> P (SFun (maybeNull_type_fn inner)).
Hypothesis Hother :
  forall s, (forall args, s <> SFun (union_fn args)) ->
            (forall inner, s <> SFun (maybeNull_type_fn inner)) -> P s.

Fixpoint validator_ind (s : schema) : P s :=
  match s with
  | SFun (union_fn args) =>
      Hunion args
        ((fix go (l : list schema) : Forall P l :=
            match l with
            | [] => List.Forall_nil P
            | x :: rest => List.Forall_cons P x rest (validator_ind x) (go rest)
            end) args)
  | SFun (maybeNull_type_fn inner) => Hnullable inner (validator_ind inner)
  | SPrim p => Hother (SPrim p) (fun _ H => ltac:(discriminate H)) (fun _ H => ltac:(discriminate H))
  | SArr l => Hother (SArr l) (fun _ H => ltac:(discriminate H)) (fun _ H => ltac:(discriminate H))
  | SObj l => Hother (SObj l) (fun _ H => ltac:(discriminate H)) (fun _ H => ltac:(discriminate H))
  | SFun boolean_fn =>
      Hother (SFun boolean_fn) (fun _ H => ltac:(discriminate H)) (fun _ H => ltac:(discriminate H))
  | SFun number_fn =>
      Hother (SFun number_fn) (fun _ H => ltac:(discriminate H)) (fun _ H => ltac:(discriminate H))
  | SFun string_fn =>
      Hother (SFun string_fn) (fun _ H => ltac:(discriminate H)) (fun _ H => ltac:(discriminate H))
  | SFun (enum_fn l) =>
      Hother (SFun (enum_fn l)) (fun _ H => ltac:(discriminate H)) (fun _ H => ltac:(discriminate H))
  | SFun (maybeNull_schema_fn a) =>
      Hother (SFun (maybeNull_schema_fn a)) (fun _ H => ltac:(discriminate H))
        (fun _ H => ltac:(discriminate H))
  | SFun (model_fn n) =>
      Hother (SFun (model_fn n)) (fun _ H => ltac:(discriminate H)) (fun _ H => ltac:(discriminate H))
  | SFun (custom g) =>
      Hother (SFun (custom g)) (fun _ H => ltac:(discriminate H)) (fun _ H => ltac:(discriminate H))
  end.
End validator_ind.

(** * Properties *)

(** ** Worked examples from the documentation *)

Example stringifyPath_doc :
  stringifyPath (Some [Key "<pregnancy>"; Key "document"; Key "visits"; Idx 1; Key "date"])
  = Ok "<pregnancy>.document.visits[1].date".
Proof. reflexivity. Qed.

Example show_doc :
  show (VObj [("name", VPrim (Str "Jay")); ("id", VPrim Undefined);
              ("tags", VArr [VPrim (Num (-3)); VPrim Undefined])])
  = "{" +:+ quote "name" +:+ ":" +:+ quote "Jay" +:+ "," +:+ quote "tags" +:+ ":[-3,null]}".
Proof. reflexivity. Qed.

(** Setting [id] to a string through a method: the guard lets the change
    through and the validator rejects the value. *)
Example user_id_string :
  deepTypeCheck (VPrim (Str "x")) types.number (Some [Key "<user>"; Key "id"])
  = Err (TypeError ("check failed for data property at path <user>.id. Got: " +:+ quote "x")).
Proof. reflexivity. Qed.

(** ** Generic facts *)

Lemma All_Forall {A} (P : A -> Prop) (l : list A) : All P l <-> Forall P l.
Proof.
  induction l as [|x l IH]; simpl.
  - split; auto.
  - rewrite Forall_cons. tauto.
Qed.

Lemma bind_Ok {A B} (r : result A) (k : A -> result B) (a : A) :
  r = Ok a -> bind r k = k a.
Proof. intros ->. reflexivity. Qed.

(** A loop whose callback returns on every element returns. *)
Lemma forEach_from_Ok {A} (f : A -> nat -> result unit) (l : list A) (i : nat) :
  (forall j x, l !! j = Some x -> f x (i + j)%nat = Ok tt) ->
  forEach_from f l i = Ok tt.
Proof.
  revert i. induction l as [|x l IH]; intros i H; simpl; [reflexivity|].
  rewrite (bind_Ok _ _ tt).
  - apply IH. intros j y Hj. replace (S i + j)%nat with (i + S j)%nat by lia.
    apply H. exact Hj.
  - specialize (H 0%nat x eq_refl). rewrite Nat.add_0_r in H. exact H.
Qed.

(** A loop stops at the first element whose callback throws. *)
Lemma forEach_from_Err {A} (f : A -> nat -> result unit) (l1 l2 : list A) (x : A)
    (i : nat) (e : exn) :
  (forall j y, l1 !! j = Some y -> f y (i + j)%nat = Ok tt) ->
  f x (i + length l1)%nat = Err e ->
  forEach_from f (l1 ++ x :: l2) i = Err e.
Proof.
  revert i. induction l1 as [|y l1 IH]; intros i Hpre Hx; simpl.
  - simpl in Hx. rewrite Nat.add_0_r in Hx. rewrite Hx. reflexivity.
  - rewrite (bind_Ok _ _ tt).
    + apply IH.
      * intros j z Hj. replace (S i + j)%nat with (i + S j)%nat by lia.
        apply Hpre. exact Hj.
      * simpl in Hx. replace (S i + length l1)%nat with (i + S (length l1))%nat by lia.
        exact Hx.
    + specialize (Hpre 0%nat y eq_refl). rewrite Nat.add_0_r in Hpre. exact Hpre.
Qed.

(** ** Unfolding [deepTypeCheck] by the kind of the schema node *)

Lemma deepTypeCheck_falsy v s p :
  truthy_schema s = false ->
  deepTypeCheck v s p =
    (sp <- stringifyPath p ;; Err (Error ("invalid schema property for path: " +:+ sp))).
Proof. intros H. destruct s; simpl in *; rewrite ?H; try discriminate; reflexivity. Qed.

Lemma deepTypeCheck_undefined s p :
  truthy_schema s = true ->
  deepTypeCheck (VPrim Undefined) s p =
    (sp <- stringifyPath p ;; Err (TypeError ("undefined data property at path: " +:+ sp))).
Proof. intros H. destruct s; simpl in *; rewrite ?H; reflexivity. Qed.

Lemma deepTypeCheck_obj v entries p :
  is_undefined v = false ->
  deepTypeCheck v (SObj entries) p =
    forEach (fun '(key, sub) _ =>
               x <- get_prop v key ;;
               if isObject_schema sub && negb (isObject x) then
                 p' <- spread p (Key key) ;;
                 sp <- stringifyPath p' ;;
                 Err (TypeError ("expected object for data property at path " +:+ sp
                                 +:+ ", Got: " +:+ show x))
               else
                 p' <- spread p (Key key) ;;
                 deepTypeCheck x sub p') entries.
Proof. intros H. simpl. rewrite H. reflexivity. Qed.

Lemma deepTypeCheck_leaf v f p :
  is_undefined v = false ->
  deepTypeCheck v (SFun f) p = typeCheck v (SFun f) p.
Proof. intros H. simpl. rewrite H. reflexivity. Qed.

Lemma is_undefined_false v : v <> VPrim Undefined -> is_undefined v = false.
Proof. destruct v as [[]| |]; try reflexivity. congruence. Qed.

Lemma is_undefined_true v : is_undefined v = true -> v = VPrim Undefined.
Proof. destruct v as [[]| |]; try discriminate. reflexivity. Qed.

Lemma get_prop_obj props key :
  get_prop (VObj props) key = Ok (default (VPrim Undefined) (assoc key props)).
Proof. reflexivity. Qed.

Lemma isObject_schema_true s : isObject_schema s = true -> exists entries, s = SObj entries.
Proof.
  unfold isObject_schema. destruct s as [p| | |]; simpl; intros H; try discriminate; eauto.
  destruct p; simpl in H; rewrite ?andb_false_r in H; discriminate.
Qed.

(** ** C1: data that matches the schema validates *)

Lemma matches_not_prim p0 v p : ~ matches (SPrim p0) v p.
Proof. intros (r & H & _). discriminate. Qed.

Lemma matches_obj_inv sub v p :
  isObject_schema sub = true -> matches sub v p -> isObject v = true.
Proof.
  intros H M. apply isObject_schema_true in H as [entries ->].
  destruct M as (props & -> & _). reflexivity.
Qed.

Lemma typeCheck_satisfies validator v p :
  satisfies validator v p -> typeCheck v validator (Some p) = Ok tt.
Proof.
  intros (r & Hr & Ht). unfold typeCheck, typeCheck_with.
  unfold apply in Hr. rewrite Hr. simpl. rewrite Ht. reflexivity.
Qed.

Lemma deepTypeCheck_matches s :
  forall v p, matches s v p -> defined_leaves s v -> deepTypeCheck v s (Some p) = Ok tt.
Proof.
  induction s as [p0|elems IH|entries IH|f] using schema_tree_ind; intros v p M D.
  - exfalso. eapply matches_not_prim, M.
  - destruct M as (items & -> & M). simpl.
    destruct elems as [|s0 rest]; [reflexivity|].
    apply Forall_cons in IH as [IH0 _].
    destruct s0 as [p0|sub|sub|f]; simpl.
    + destruct p0 as [| |[]| |]; simpl; rewrite ?andb_false_r; reflexivity.
    + apply forEach_from_Ok. intros j x Hj. simpl.
      apply IH0; [apply M, Hj|]. simpl in D. eapply D; [reflexivity|].
      eapply list_elem_of_lookup_2, Hj.
    + apply forEach_from_Ok. intros j x Hj. simpl.
      apply IH0; [apply M, Hj|]. simpl in D. eapply D; [reflexivity|].
      eapply list_elem_of_lookup_2, Hj.
    + apply forEach_from_Ok. intros j x Hj. simpl.
      apply (typeCheck_satisfies (SFun f)). apply (M j x Hj).
  - destruct M as (props & -> & M). rewrite deepTypeCheck_obj by reflexivity.
    apply forEach_from_Ok. intros j [key sub] Hj.
    rewrite get_prop_obj. simpl bind.
    apply All_Forall in M. simpl in D. apply All_Forall in D.
    pose proof (proj1 (Forall_lookup _ _) M j _ Hj) as Mj. simpl in Mj.
    pose proof (proj1 (Forall_lookup _ _) D j _ Hj) as Dj. simpl in Dj.
    pose proof (proj1 (Forall_lookup _ _) IH j _ Hj) as IHj. simpl in IHj.
    destruct (isObject_schema sub) eqn:Eo; simpl.
    + rewrite (matches_obj_inv _ _ _ Eo Mj). simpl. apply IHj; [exact Mj|].
      apply Dj. reflexivity.
    + apply IHj; [exact Mj|]. apply Dj. reflexivity.
  - simpl in D. rewrite deepTypeCheck_leaf by (apply is_undefined_false, D).
    apply typeCheck_satisfies, M.
Qed.

Lemma forEach_from_ext {A} (f g : A -> nat -> result unit) (l : list A) (i : nat) :
  (forall x j, x ∈ l -> f x j = g x j) -> forEach_from f l i = forEach_from g l i.
Proof.
  revert i. induction l as [|x l IH]; intros i H; simpl; [reflexivity|].
  rewrite (H x i) by apply list_elem_of_here.
  rewrite IH; [reflexivity|]. intros y j Hy. apply H, list_elem_of_further, Hy.
Qed.

(** Only the properties named by the schema are read. *)
Lemma deepTypeCheck_schema_keys entries props props' p :
  (forall key sub, (key, sub) ∈ entries -> assoc key props = assoc key props') ->
  deepTypeCheck (VObj props) (SObj entries) p = deepTypeCheck (VObj props') (SObj entries) p.
Proof.
  intros H. rewrite !deepTypeCheck_obj by reflexivity.
  apply forEach_from_ext. intros [key sub] j Hin.
  rewrite !get_prop_obj, (H key sub Hin). reflexivity.
Qed.

(** C1, as amended.  Whenever the data structurally matches the schema
    (every leaf predicate returns a truthy value on its leaf value, every
    object node meets an object, every array node meets an array whose
    elements match [schema[0]]) and no leaf value that [deepTypeCheck]
    receives is [undefined], [deepTypeCheck(data, schema, path)] returns
    without raising.  Moreover the outcome on an object depends only on the
    properties whose keys are in the schema: two objects that agree on those
    keys get the same outcome, whatever else they hold. *)
Theorem C1_matching_data_validates :
  (forall s v p,
      matches s v p -> defined_leaves s v -> deepTypeCheck v s (Some p) = Ok tt)
  /\ (forall entries props props' p,
        (forall key sub, (key, sub) ∈ entries -> assoc key props = assoc key props') ->
        deepTypeCheck (VObj props) (SObj entries) p
        = deepTypeCheck (VObj props') (SObj entries) p).
Proof.
  split.
  - intros s v p. apply deepTypeCheck_matches.
  - apply deepTypeCheck_schema_keys.
Qed.

Lemma C1_witness :
  matches user_schema user_data [Key "<user>"]
  /\ defined_leaves user_schema user_data
  /\ deepTypeCheck user_data user_schema (Some [Key "<user>"]) = Ok tt
  /\ deepTypeCheck user_data user_schema (Some [Key "<user>"])
     = deepTypeCheck (VObj [("id", VPrim (Num 1))]) user_schema (Some [Key "<user>"]).
Proof.
  assert (M : matches user_schema user_data [Key "<user>"]).
  { exists [("id", VPrim (Num 1)); ("name", VPrim (Str "Joe Armstrong"))].
    split; [reflexivity|]. simpl. split; [|exact I].
    exists (VPrim (Bool true)). split; reflexivity. }
  assert (D : defined_leaves user_schema user_data).
  { simpl. split; [|exact I]. intros x Hx. injection Hx as <-. discriminate. }
  split; [exact M|]. split; [exact D|]. split.
  - exact (proj1 C1_matching_data_validates _ _ _ M D).
  - apply (proj2 C1_matching_data_validates).
    intros key sub Hin. apply list_elem_of_singleton in Hin.
    injection Hin as -> ->. reflexivity.
Defined.

(** C1 as first stated fails here: a leaf predicate that accepts [undefined]
    is satisfied by an absent property, yet [deepTypeCheck] rejects
    [undefined] before it consults the predicate. *)
Lemma C1_counterexample :
  wf_schema optional_schema = true
  /\ matches optional_schema (VObj [("id", VPrim (Num 1))]) [Key "<user>"]
  /\ deepTypeCheck (VObj [("id", VPrim (Num 1))]) optional_schema (Some [Key "<user>"])
     = Err (TypeError "undefined data property at path: <user>.nickname").
Proof.
  split; [reflexivity|]. split; [|reflexivity].
  exists [("id", VPrim (Num 1))]. split; [reflexivity|]. simpl. split; [|exact I].
  exists (VPrim (Bool true)). split; reflexivity.
Qed.

(** ** Strings and rendered paths *)

Lemma append_cons (c : ascii) (s t : string) : String c s +:+ t = String c (s +:+ t).
Proof. reflexivity. Qed.

Lemma append_nil_r (s : string) : s +:+ "" = s.
Proof.
  induction s as [|c s IH]; [reflexivity|]. rewrite append_cons, IH. reflexivity.
Qed.

Lemma append_assoc (a b c : string) : (a +:+ b) +:+ c = a +:+ b +:+ c.
Proof.
  induction a as [|x a IH]; [reflexivity|]. rewrite !append_cons, IH. reflexivity.
Qed.

Lemma contains_refl s : contains s s.
Proof. exists "", "". rewrite append_nil_r. reflexivity. Qed.

Lemma contains_trans a b c : contains a b -> contains b c -> contains a c.
Proof.
  intros (p1 & q1 & ->) (p2 & q2 & ->). exists (p1 +:+ p2), (q2 +:+ q1).
  rewrite !append_assoc. reflexivity.
Qed.

Lemma contains_app_r s post part : contains s part -> contains (s +:+ post) part.
Proof.
  intros H. eapply contains_trans; [|exact H]. exists "", post. reflexivity.
Qed.

Lemma contains_step acc el : contains (stringifyPath_step acc el) acc.
Proof. destruct el; apply contains_app_r, contains_refl. Qed.

Lemma contains_foldl_step acc segs : contains (foldl stringifyPath_step acc segs) acc.
Proof.
  revert acc. induction segs as [|el segs IH]; intros acc; simpl.
  - apply contains_refl.
  - eapply contains_trans; [apply IH|apply contains_step].
Qed.

(** A path that is not empty has a rendering. *)
Lemma stringifyPath_nonempty p :
  p <> [] -> exists sp, stringifyPath (Some p) = Ok sp.
Proof. destruct p as [|[k|i] rest]; [congruence| |]; simpl; eauto. Qed.

(** The rendering of a path extends the rendering of each of its nonempty
    prefixes. *)
Lemma stringifyPath_app p q sp :
  stringifyPath (Some p) = Ok sp ->
  stringifyPath (Some (p ++ q)) = Ok (foldl stringifyPath_step sp q).
Proof.
  destruct p as [|[k|i] rest]; simpl; [discriminate| |];
    intros [= <-]; rewrite foldl_app; reflexivity.
Qed.

Lemma stringifyPath_snoc p el sp :
  stringifyPath (Some p) = Ok sp ->
  stringifyPath (Some (p ++ [el])) = Ok (stringifyPath_step sp el).
Proof. intros H. rewrite (stringifyPath_app _ _ _ H). reflexivity. Qed.

Lemma snoc_nonempty {A} (l : list A) (x : A) : l ++ [x] <> [].
Proof. destruct l; discriminate. Qed.

(** ** C2: which mismatch is reported, and where *)

Lemma wf_truthy s : wf_schema s = true -> truthy_schema s = true.
Proof.
  destruct s; simpl; intros H; try reflexivity.
  apply andb_true_iff in H as [H _]. exact H.
Qed.

Lemma wf_arr_head s0 rest : wf_schema (SArr (s0 :: rest)) = true -> wf_schema s0 = true.
Proof. simpl. intros H. apply andb_true_iff in H as [H _]. exact H. Qed.

Lemma wf_obj_entry before key sub after :
  wf_schema (SObj (before ++ (key, sub) :: after)) = true -> wf_schema sub = true.
Proof.
  simpl. rewrite forallb_app. simpl. intros H.
  apply andb_true_iff in H as [_ H]. apply andb_true_iff in H as [H _]. exact H.
Qed.

Lemma wf_nullable inner :
  wf_schema (SFun (maybeNull_schema_fn inner)) = true -> wf_schema inner = true.
Proof. simpl. trivial. Qed.

(** The callback of the loop over the schema keys returns on an entry whose
    property validates. *)
Lemma entry_validates props key sub p :
  validates sub (default (VPrim Undefined) (assoc key props)) (p ++ [Key key]) ->
  (x <- get_prop (VObj props) key ;;
   if isObject_schema sub && negb (isObject x) then
     p' <- spread (Some p) (Key key) ;;
     sp <- stringifyPath p' ;;
     Err (TypeError ("expected object for data property at path " +:+ sp
                     +:+ ", Got: " +:+ show x))
   else
     p' <- spread (Some p) (Key key) ;;
     deepTypeCheck x sub p') = Ok tt.
Proof.
  intros [M D]. rewrite get_prop_obj. simpl bind.
  destruct (isObject_schema sub) eqn:Eo; simpl.
  - rewrite (matches_obj_inv _ _ _ Eo M). simpl. apply deepTypeCheck_matches; assumption.
  - apply deepTypeCheck_matches; assumption.
Qed.

Lemma All_lookup {A} (P : A -> Prop) (l : list A) (j : nat) (x : A) :
  All P l -> l !! j = Some x -> P x.
Proof. intros H Hj. apply All_Forall in H. exact (proj1 (Forall_lookup _ _) H j x Hj). Qed.

Lemma reports_TypeError pre post q sp :
  stringifyPath (Some q) = Ok sp ->
  reports (Err (TypeError (pre +:+ sp +:+ post))) q.
Proof. intros H. exists (TypeError (pre +:+ sp +:+ post)), (pre +:+ sp +:+ post), sp.
  repeat split; [exact H|]. exists pre, post. reflexivity.
Qed.

Lemma reports_undefined s p :
  wf_schema s = true -> p <> [] -> reports (deepTypeCheck (VPrim Undefined) s (Some p)) p.
Proof.
  intros W Hp. rewrite deepTypeCheck_undefined by apply wf_truthy, W.
  destruct (stringifyPath_nonempty p Hp) as [sp Hsp]. rewrite Hsp. simpl.
  rewrite <- (append_nil_r sp) at 1. apply reports_TypeError, Hsp.
Qed.

Lemma reports_check_failed v p :
  p <> [] ->
  reports (sp <- stringifyPath (Some p) ;;
           Err (TypeError ("check failed for data property at path " +:+ sp
                           +:+ ". Got: " +:+ show v))) p.
Proof.
  intros Hp. destruct (stringifyPath_nonempty p Hp) as [sp Hsp]. rewrite Hsp. simpl.
  apply reports_TypeError, Hsp.
Qed.

Lemma typeCheck_rejects f v p :
  p <> [] -> rejects (SFun f) v p -> reports (typeCheck v (SFun f) (Some p)) p.
Proof.
  intros Hp (r & Hr & Ht). unfold typeCheck, typeCheck_with.
  unfold apply in Hr. rewrite Hr. simpl. rewrite Ht.
  apply reports_check_failed, Hp.
Qed.

Lemma typeCheck_nullable inner v p :
  v <> VPrim Null ->
  typeCheck v (SFun (maybeNull_schema_fn inner)) (Some p)
  = (deepTypeCheck v inner (Some p) ;;; Ok tt).
Proof.
  intros Hv. unfold typeCheck, typeCheck_with. simpl.
  replace (is_null v) with false.
  - destruct (deepTypeCheck v inner (Some p)); reflexivity.
  - destruct v as [[]| |]; try reflexivity. congruence.
Qed.

Lemma reports_bind r q : reports r q -> reports (r ;;; Ok tt) q.
Proof. intros (e & msg & sp & -> & H). exists e, msg, sp. split; [reflexivity|exact H]. Qed.

Lemma deepTypeCheck_not_array v elems p :
  is_undefined v = false -> Array_isArray v = false ->
  deepTypeCheck v (SArr elems) p =
    (sp <- stringifyPath p ;;
     Err (TypeError ("expected array for data property at path " +:+ sp
                     +:+ ", Got: " +:+ show v))).
Proof.
  intros Hu Ha. destruct v as [pv| |]; try discriminate; simpl in *; rewrite ?Hu; reflexivity.
Qed.

(** A loop reports what its first failing callback reports. *)
Lemma forEach_reports {A} (f : A -> nat -> result unit) (before after : list A)
    (x : A) (q : path) :
  (forall j y, before !! j = Some y -> f y j = Ok tt) ->
  reports (f x (length before)) q ->
  reports (forEach f (before ++ x :: after)) q.
Proof.
  intros Hpre (e & msg & sp & He & Hm). exists e, msg, sp. split; [|exact Hm].
  apply forEach_from_Err; [exact Hpre|exact He].
Qed.

Lemma reports_expected_object p key x :
  reports (p' <- spread (Some p) (Key key) ;;
           sp <- stringifyPath p' ;;
           Err (TypeError ("expected object for data property at path " +:+ sp
                           +:+ ", Got: " +:+ show x))) (p ++ [Key key]).
Proof.
  destruct (stringifyPath_nonempty _ (snoc_nonempty p (Key key))) as [sp Hsp].
  cbn [spread bind]. rewrite Hsp. cbn [bind]. apply reports_TypeError, Hsp.
Qed.

Lemma first_mismatch_reported s v p q :
  first_mismatch s v p q -> wf_schema s = true -> p <> [] ->
  reports (deepTypeCheck v s (Some p)) q.
Proof.
  induction 1 as [s p|f v p Hv Hr|inner v p q Hv H IH|elems v p Hv Ha
                 |s0 rest before x after p q Ht Hpre H IH
                 |f rest before x after p Hpre Hr
                 |inner rest before x after p q Hpre Hx H IH
                 |before key sub after props p Ho Hpre Hx
                 |before key sub after props p q Hpre H IH]; intros W Hp.
  - apply reports_undefined; assumption.
  - rewrite deepTypeCheck_leaf by apply is_undefined_false, Hv.
    apply typeCheck_rejects; assumption.
  - specialize (IH (wf_nullable _ W) Hp).
    destruct (is_undefined v) eqn:Eu.
    + apply is_undefined_true in Eu as ->.
      rewrite deepTypeCheck_undefined in *
        by first [apply wf_truthy, W|apply wf_truthy, wf_nullable, W].
      exact IH.
    + rewrite deepTypeCheck_leaf by exact Eu. rewrite typeCheck_nullable by exact Hv.
      apply reports_bind, IH.
  - rewrite deepTypeCheck_not_array by first [apply is_undefined_false, Hv|exact Ha].
    destruct (stringifyPath_nonempty p Hp) as [sp Hsp]. rewrite Hsp. simpl.
    apply reports_TypeError, Hsp.
  - simpl. rewrite (wf_truthy _ (wf_arr_head _ _ W)), Ht. simpl.
    apply forEach_reports.
    + intros j y Hj. simpl. destruct (Hpre j y Hj) as [M D].
      apply deepTypeCheck_matches; assumption.
    + simpl. exact (IH (wf_arr_head _ _ W) (snoc_nonempty _ _)).
  - simpl. apply forEach_reports.
    + intros j y Hj. simpl. apply (typeCheck_satisfies (SFun f)), Hpre, Hj.
    + simpl. apply typeCheck_rejects; [apply snoc_nonempty|exact Hr].
  - simpl. apply forEach_reports.
    + intros j y Hj. simpl.
      apply (typeCheck_satisfies (SFun (maybeNull_schema_fn inner))), Hpre, Hj.
    + cbn [spread bind].
      change (typeCheck_with call x (SFun (maybeNull_schema_fn inner))
                (Some (p ++ [Idx (length before)])))
        with (typeCheck x (SFun (maybeNull_schema_fn inner))
                (Some (p ++ [Idx (length before)]))).
      rewrite typeCheck_nullable by exact Hx.
      apply reports_bind, IH; [exact (wf_nullable _ (wf_arr_head _ _ W))|apply snoc_nonempty].
  - rewrite deepTypeCheck_obj by reflexivity. apply forEach_reports.
    + intros j [k s'] Hj. apply entry_validates. exact (All_lookup _ _ _ _ Hpre Hj).
    + cbv beta iota. rewrite get_prop_obj. cbn [bind]. rewrite Ho, Hx. cbn [andb negb].
      apply reports_expected_object.
  - rewrite deepTypeCheck_obj by reflexivity. apply forEach_reports.
    + intros j [k s'] Hj. apply entry_validates. exact (All_lookup _ _ _ _ Hpre Hj).
    + cbv beta iota. rewrite get_prop_obj. cbn [bind].
      specialize (IH (wf_obj_entry _ _ _ _ W) (snoc_nonempty _ _)).
      destruct (isObject_schema sub
                && negb (isObject (default (VPrim Undefined) (assoc key props)))) eqn:E.
      * apply andb_true_iff in E as [Ho Hx]. apply negb_true_iff in Hx.
        apply isObject_schema_true in Ho as [entries ->].
        assert (q = p ++ [Key key]) as ->.
        { inversion H; subst; try reflexivity;
            match goal with
            | Hd : VObj _ = default _ _ |- _ => rewrite <- Hd in Hx; discriminate
            end. }
        apply reports_expected_object.
      * cbn [spread bind]. exact IH.
Qed.

(** The rendering joins string segments with dots and puts numeric indices
    in square brackets. *)
Lemma stringifyPath_segments :
  (forall p sp k,
      stringifyPath (Some p) = Ok sp ->
      stringifyPath (Some (p ++ [Key k])) = Ok (sp +:+ "." +:+ k))
  /\ (forall p sp i,
        stringifyPath (Some p) = Ok sp ->
        stringifyPath (Some (p ++ [Idx i])) = Ok (sp +:+ "[" +:+ string_of_nat i +:+ "]")).
Proof.
  split.
  - intros p sp k H. exact (stringifyPath_snoc p (Key k) sp H).
  - intros p sp i H. exact (stringifyPath_snoc p (Idx i) sp H).
Qed.

Lemma book_first_mismatch :
  first_mismatch book_schema book_data [Key "<book>"]
    [Key "<book>"; Key "publishers"; Idx 1; Key "id"].
Proof.
  apply (fm_property [] "publishers" _ [] _ [Key "<book>"]); [exact I|].
  apply (fm_element _ [] [_] _ [] [Key "<book>"; Key "publishers"]); [reflexivity| |].
  - intros [|[|i]] y Hy; try discriminate. injection Hy as <-. split.
    + eexists. split; [reflexivity|]. simpl.
      repeat split; exists (VPrim (Bool true)); split; reflexivity.
    + simpl. repeat split; intros x [= <-]; discriminate.
  - apply (fm_property [] "id" _ [_] _ [Key "<book>"; Key "publishers"; Idx 1]); [exact I|].
    apply fm_undefined.
Qed.

Example book_reported :
  reports (deepTypeCheck book_data book_schema (Some [Key "<book>"]))
    [Key "<book>"; Key "publishers"; Idx 1; Key "id"].
Proof.
  apply first_mismatch_reported;
    [exact book_first_mismatch|reflexivity|discriminate].
Qed.

Example book_error :
  deepTypeCheck book_data book_schema (Some [Key "<book>"])
  = Err (TypeError "undefined data property at path: <book>.publishers[1].id").
Proof. reflexivity. Qed.

Lemma null_element_mismatch name sub p :
  ~ matches (SObj [(name, SArr [SObj sub])]) (VObj [(name, VArr [VPrim Null])]) p.
Proof.
  intros (props & [= <-] & M & _). simpl in M. rewrite String.eqb_refl in M. simpl in M.
  destruct M as (items & [= <-] & M).
  destruct (M 0%nat (VPrim Null) eq_refl) as (props & Hp & _). discriminate.
Qed.

(** C2, where the code departs from it.  An object node that is the element
    schema of an array is entered without comparing it with the shape of the
    element.  For the book schema, a [null] publisher is a mismatch at
    [<book>.publishers[0]], and [deepTypeCheck] ends in the host's TypeError
    for reading [id] of [null], which carries no message of the source and no
    path; when the element schema has no keys, a [null] element is a mismatch
    and [deepTypeCheck] returns without raising. *)
Theorem C2_null_element_unreported :
  (wf_schema book_schema = true
   /\ ~ matches book_schema (VObj [("publishers", VArr [VPrim Null])]) [Key "<book>"]
   /\ deepTypeCheck (VObj [("publishers", VArr [VPrim Null])]) book_schema
        (Some [Key "<book>"])
      = Err (HostTypeError (PropertyOfNullish "id"))
   /\ message_of (HostTypeError (PropertyOfNullish "id")) = None)
  /\ (wf_schema items_schema = true
      /\ ~ matches items_schema (VObj [("items", VArr [VPrim Null])]) [Key "<list>"]
      /\ deepTypeCheck (VObj [("items", VArr [VPrim Null])]) items_schema
           (Some [Key "<list>"])
         = Ok tt).
Proof.
  split.
  - split; [reflexivity|]. split; [apply null_element_mismatch|].
    split; reflexivity.
  - split; [reflexivity|]. split; [apply null_element_mismatch|reflexivity].
Qed.

(** ** C3: a property that is not an object under an object sub-schema *)

Lemma forEach_from_app {A} (f : A -> nat -> result unit) (l1 l2 : list A) (i : nat) :
  forEach_from f (l1 ++ l2) i
  = (forEach_from f l1 i ;;; forEach_from f l2 (i + length l1)%nat).
Proof.
  revert i. induction l1 as [|x l1 IH]; intros i; simpl.
  - rewrite Nat.add_0_r. reflexivity.
  - destruct (f x i) as [[]|e]; simpl; [|reflexivity].
    rewrite IH. replace (S i + length l1)%nat with (i + S (length l1))%nat by lia.
    reflexivity.
Qed.

Lemma get_prop_defined dataStore key x :
  get_prop dataStore key = Ok x -> is_undefined dataStore = false.
Proof. destruct dataStore as [[]| |]; try reflexivity. discriminate. Qed.

Lemma expected_object before key sub after dataStore x p :
  isObject_schema sub = true ->
  deepTypeCheck dataStore (SObj before) (Some p) = Ok tt ->
  get_prop dataStore key = Ok x ->
  isObject x = false ->
  exists sp,
    stringifyPath (Some (p ++ [Key key])) = Ok sp /\
    deepTypeCheck dataStore (SObj (before ++ (key, sub) :: after)) (Some p)
    = Err (TypeError ("expected object for data property at path " +:+ sp
                      +:+ ", Got: " +:+ show x)).
Proof.
  intros Ho Hbefore Hget Hx.
  destruct (stringifyPath_nonempty _ (snoc_nonempty p (Key key))) as [sp Hsp].
  exists sp. split; [exact Hsp|].
  pose proof (get_prop_defined _ _ _ Hget) as Hu.
  rewrite deepTypeCheck_obj in * by exact Hu.
  unfold forEach in *. rewrite forEach_from_app, Hbefore.
  cbn [bind forEach_from]. cbv beta iota. rewrite Hget. cbn [bind].
  rewrite Ho, Hx. cbn [andb negb spread bind]. rewrite Hsp. reflexivity.
Qed.



(** An absent property under an object sub-schema is reported as "expected
    object", not as "undefined data property". *)
Example expected_object_undefined :
  deepTypeCheck (VObj [("id", VPrim (Str "37848de6"))])
    (SObj [("id", types.string); ("created", created_schema)]) (Some [Key "<book>"])
  = Err (TypeError "expected object for data property at path <book>.created, Got: undefined").
Proof. reflexivity. Qed.

(** ** C4: the watched paths *)

Lemma reduce_app {A B} (f : B -> A -> result B) (g : A -> list string)
    (l : list A) :
  forall (h : list string -> B) (acc : list string),
    (forall x acc', x ∈ l -> f (h acc') x = Ok (h (acc' ++ g x))) ->
    reduce f l (h acc) = Ok (h (acc ++ flat_map g l)).
Proof.
  induction l as [|x l IH]; intros h acc H; simpl.
  - rewrite app_nil_r. reflexivity.
  - rewrite (H x acc) by apply list_elem_of_here. simpl.
    rewrite IH by (intros y acc' Hy; apply H, list_elem_of_further, Hy).
    rewrite app_assoc. reflexivity.
Qed.

Lemma reducer_watch_paths val :
  forall path acc key,
    no_null_node val = true ->
    reducer path acc key val = Ok (acc ++ watch_paths path key val).
Proof.
  induction val as [p0|elems _|entries IH|f] using schema_tree_ind;
    intros path acc key N.
  - destruct p0; try reflexivity. discriminate.
  - reflexivity.
  - simpl. simpl in N.
    apply (reduce_app _ (fun '(k, v) => watch_paths (path ++ [key]) k v) entries
             (fun l => l)).
    intros [k v] acc' Hin.
    apply (proj1 (Forall_forall _ _) IH (k, v) Hin).
    apply (proj1 (forallb_forall _ _) N (k, v)). apply list_elem_of_In, Hin.
  - reflexivity.
Qed.

(** C4.  [getWatchProperties] walks the entries of the schema depth first in
    key order: an object sub-schema is entered and gives the paths found
    under it, every other value (a predicate function, an array of any
    shape) gives exactly one dot-joined path and is not entered.  On
    [{a: {b: string}, c: [{d: string}], e: string}] the result is
    [['a.b', 'c', 'e']]. *)
Theorem C4_getWatchProperties :
  (forall entries,
      no_null_node (SObj entries) = true ->
      getWatchProperties (SObj entries)
      = Ok (flat_map (fun '(key, val) => watch_paths [] key val) entries))
  /\ (forall path key entries,
        watch_paths path key (SObj entries)
        = flat_map (fun '(k, v) => watch_paths (path ++ [key]) k v) entries)
  /\ (forall path key elems,
        watch_paths path key (SArr elems) = [String.concat "." (path ++ [key])])
  /\ (forall path key f,
        watch_paths path key (SFun f) = [String.concat "." (path ++ [key])])
  /\ getWatchProperties watch_example = Ok ["a.b"; "c"; "e"].
Proof.
  split; [|repeat split; reflexivity].
  intros entries N. unfold getWatchProperties. simpl.
  rewrite (reduce_app _ (fun e => watch_paths [] (fst e) (snd e)) entries (fun l => l)).
  - simpl. f_equal. apply flat_map_ext. intros [key val]. reflexivity.
  - intros [k v] acc' Hin. unfold getReducerForPath. simpl.
    apply reducer_watch_paths.
    simpl in N. apply (proj1 (forallb_forall _ _) N (k, v)). apply list_elem_of_In, Hin.
Qed.

Lemma C4_witness :
  no_null_node watch_example = true
  /\ getWatchProperties watch_example = Ok ["a.b"; "c"; "e"].
Proof.
  split; [reflexivity|].
  exact (proj1 C4_getWatchProperties _ (eq_refl : no_null_node watch_example = true)).
Defined.

(** ** C6: the watch callback *)

Lemma watchCallback_cases :
  forall name this n,
    _mutex this = Count n ->
    (n = 0 ->
     watchCallback name this
     = (Err (Error (name +:+ " store is immutable! Updates must happen within a method or computed setter.")),
        this))
    /\ (n < 0 ->
        watchCallback name this
        = (Err (Error ("Somehow the mutex is off in " +:+ name +:+ ". This should never happen.")),
           this))
    /\ (0 < n ->
        watchCallback name this = (Ok (VPrim Undefined), set_mutex (Count (n - 1)) this)).
Proof.
  intros name this n H. unfold watchCallback, mutex_add. rewrite H.
  repeat split; intros Hn.
  - subst n. reflexivity.
  - destruct (Z.eqb_spec n 0) as [->|_]; [lia|].
    destruct (Z.ltb_spec n 0); [reflexivity|lia].
  - destruct (Z.eqb_spec n 0) as [->|_]; [lia|].
    destruct (Z.ltb_spec n 0); [lia|]. reflexivity.
Qed.

(** C6.  [watchCallback] on a counter [n]: at [0] it raises the immutability
    error and leaves the counter as it is; below [0] it raises the "should
    never happen" error and leaves the counter as it is; above [0] it takes
    one off the counter and does not raise. *)
Theorem C6_watchCallback :
  forall name this n,
    _mutex this = Count n ->
    (n = 0 ->
     watchCallback name this
     = (Err (Error (name +:+ " store is immutable! Updates must happen within a method or computed setter.")),
        this))
    /\ (n < 0 ->
        watchCallback name this
        = (Err (Error ("Somehow the mutex is off in " +:+ name +:+ ". This should never happen.")),
           this))
    /\ (0 < n ->
        watchCallback name this = (Ok (VPrim Undefined), set_mutex (Count (n - 1)) this)).
Proof. exact watchCallback_cases. Qed.

Lemma C6_witness :
  watchCallback "user" (Instance (Count 0) [])
  = (Err (Error "user store is immutable! Updates must happen within a method or computed setter."),
     Instance (Count 0) [])
  /\ watchCallback "user" (Instance (Count (-1)) [])
     = (Err (Error "Somehow the mutex is off in user. This should never happen."),
        Instance (Count (-1)) [])
  /\ watchCallback "user" (Instance (Count 2) [])
     = (Ok (VPrim Undefined), Instance (Count 1) []).
Proof.
  split; [|split].
  - exact (proj1 (C6_watchCallback "user" (Instance (Count 0) []) 0 eq_refl) eq_refl).
  - exact (proj1 (proj2 (C6_watchCallback "user" (Instance (Count (-1)) []) (-1) eq_refl))
             eq_refl).
  - exact (proj2 (proj2 (C6_watchCallback "user" (Instance (Count 2) []) 2 eq_refl))
             eq_refl).
Defined.

(** ** C5: the counter over a run *)

Lemma wrapper_counter f args this n :
  keeps_mutex f -> _mutex this = Count n ->
  _mutex (snd (wrapper f args this)) = Count (n + 1).
Proof.
  intros Hf H. unfold wrapper. rewrite Hf. unfold mutex_add. rewrite H. reflexivity.
Qed.

Lemma calls_Call f args evs : calls (Call f args :: evs) = S (calls evs).
Proof. unfold calls. rewrite filter_cons_True by reflexivity. reflexivity. Qed.

Lemma calls_Notify evs : calls (Notify :: evs) = calls evs.
Proof. unfold calls. rewrite filter_cons_False by discriminate. reflexivity. Qed.

Lemma run_counter name evs :
  forall this n,
    Forall guarded evs -> _mutex this = Count n -> 0 <= n ->
    _mutex (fst (run name evs this))
    = Count (n + Z.of_nat (calls evs) - Z.of_nat (snd (run name evs this)))
    /\ 0 <= n + Z.of_nat (calls evs) - Z.of_nat (snd (run name evs this)).
Proof.
  induction evs as [|ev evs IH]; intros this n G H Hn.
  - simpl. rewrite H. split; [f_equal|]; unfold calls; simpl; lia.
  - apply Forall_cons in G as [Gev G]. destruct ev as [f args|].
    + rewrite calls_Call. cbn [run].
      pose proof (wrapper_counter f args this n Gev H) as H'.
      destruct (IH _ _ G H' ltac:(lia)) as [E Hpos].
      split; [rewrite E; f_equal|]; lia.
    + rewrite calls_Notify. cbn [run].
      destruct (watchCallback_cases name this n H) as (H0 & Hneg & Hposn).
      destruct (Z.lt_trichotomy n 0) as [Hlt|[->|Hgt]]; [lia| |].
      * rewrite (H0 eq_refl). apply (IH this 0 G H). lia.
      * rewrite (Hposn Hgt).
        destruct (run name evs (set_mutex (Count (n - 1)) this)) as [final k] eqn:Er.
        destruct (IH (set_mutex (Count (n - 1)) this) (n - 1) G eq_refl ltac:(lia))
          as [E Hpos].
        rewrite Er in E, Hpos. simpl in *. split; [rewrite E; f_equal|]; lia.
Qed.

Lemma watch_all_state w props c :
  state (foldl (fun c propExpression => watch c propExpression w) c props) = state c.
Proof.
  revert c. induction props as [|x props IH]; intros c; simpl; [reflexivity|].
  rewrite IH. reflexivity.
Qed.

(** [model] with the guard installed returns an instance whose counter is
    [0]. *)
Lemma model_counter_zero so mo h c :
  modelOptions.immutable mo <> Some false ->
  fst (model false so mo h) = Ok c ->
  _mutex (state c) = Count 0.
Proof.
  intros Hi. unfold model.
  destruct (truthy (storeOptions.data so)); cbn [negb]; [|discriminate].
  destruct (get_prop (storeOptions.data so) "_isVue") as [marker|e]; [|discriminate].
  destruct (truthy marker); [discriminate|].
  destruct (storeOptions.methods so) as [l|]; cbn [alloc_methods];
    rewrite bool_decide_eq_false_2 by exact Hi; cbn [negb andb];
    (destruct (has_schema so) as [s|];
     [destruct (getWatchProperties s) as [watchProps|e]; [|discriminate];
      destruct (deepTypeCheck _ s _); [|discriminate];
      cbn [fst]; intros [= <-]; rewrite !watch_all_state; reflexivity
     |cbn [fst]; intros [= <-]; reflexivity]).
Qed.

(** C5.  [model] with the guard installed returns an instance whose counter
    is [0].  From a counter at [0], over any sequence of calls of wrapped
    functions (whose originals leave the counter alone) and of runs of the
    watch callback, the counter is a number that is never negative: it is the
    number of calls minus the number of notifications that did not raise.
    When these two numbers are equal the counter is back at [0]; so it is
    after two overlapping calls followed by their two notifications. *)
Theorem C5_counter_never_negative :
  (forall so mo h c,
      modelOptions.immutable mo <> Some false ->
      fst (model false so mo h) = Ok c ->
      _mutex (state c) = Count 0)
  /\ (forall name evs this,
        Forall guarded evs -> _mutex this = Count 0 ->
        exists n,
          _mutex (fst (run name evs this)) = Count n /\ 0 <= n /\
          n = Z.of_nat (calls evs) - Z.of_nat (snd (run name evs this)))
  /\ (forall name evs this,
        Forall guarded evs -> _mutex this = Count 0 ->
        calls evs = snd (run name evs this) ->
        _mutex (fst (run name evs this)) = Count 0)
  /\ (forall name f1 args1 f2 args2 this,
        keeps_mutex f1 -> keeps_mutex f2 -> _mutex this = Count 0 ->
        snd (run name [Call f1 args1; Call f2 args2; Notify; Notify] this) = 2%nat
        /\ _mutex (fst (run name [Call f1 args1; Call f2 args2; Notify; Notify] this))
           = Count 0).
Proof.
  split; [exact model_counter_zero|]. split; [|split].
  - intros name evs this G H.
    destruct (run_counter name evs this 0 G H ltac:(lia)) as [E Hpos].
    eexists. split; [exact E|]. split; lia.
  - intros name evs this G H Hk.
    destruct (run_counter name evs this 0 G H ltac:(lia)) as [E _].
    rewrite E. f_equal. lia.
  - intros name f1 args1 f2 args2 this K1 K2 H.
    pose proof (wrapper_counter f1 args1 this 0 K1 H) as H1.
    pose proof (wrapper_counter f2 args2 _ _ K2 H1) as H2.
    cbn [run].
    destruct (watchCallback_cases name _ _ H2) as (_ & _ & Hp2).
    rewrite (Hp2 ltac:(lia)).
    destruct (watchCallback_cases name (set_mutex (Count (0 + 1 + 1 - 1))
                (snd (wrapper f2 args2 (snd (wrapper f1 args1 this))))) _ eq_refl)
      as (_ & _ & Hp1).
    rewrite (Hp1 ltac:(lia)). simpl. split; reflexivity.
Qed.

Lemma C5_witness :
  Forall guarded [Call setFirstName [VPrim (Str "Joe")]; Notify;
                  Call setFirstName [VPrim (Str "Mike")]; Call setFirstName [VPrim (Str "Robert")];
                  Notify; Notify]
  /\ _mutex (Instance (Count 0) [("firstName", VPrim (Str "Brian"))]) = Count 0
  /\ _mutex (fst (run "programmer"
               [Call setFirstName [VPrim (Str "Joe")]; Notify;
                Call setFirstName [VPrim (Str "Mike")]; Call setFirstName [VPrim (Str "Robert")];
                Notify; Notify]
               (Instance (Count 0) [("firstName", VPrim (Str "Brian"))]))) = Count 0.
Proof.
  assert (G : Forall guarded [Call setFirstName [VPrim (Str "Joe")]; Notify;
                  Call setFirstName [VPrim (Str "Mike")]; Call setFirstName [VPrim (Str "Robert")];
                  Notify; Notify]).
  { repeat constructor; intros args this; reflexivity. }
  split; [exact G|]. split; [reflexivity|].
  exact (proj1 (proj2 (proj2 C5_counter_never_negative)) "programmer" _
           (Instance (Count 0) [("firstName", VPrim (Str "Brian"))]) G eq_refl eq_refl).
Defined.

(** ** C7: what the guard wraps *)

Lemma wrap_methods_lookup (methods : gmap string jsfun) (key : string) :
  wrap_methods methods !! key = wrapper <$> methods !! key.
Proof.
  unfold wrap_methods.
  assert (H : forall m : gmap string jsfun,
             forall k,
               map_fold (fun key value acc => <[key := wrapper value]> acc) methods m !! k
               = match m !! k with
                 | Some value => Some (wrapper value)
                 | None => methods !! k
                 end).
  { intros m.
    apply (map_fold_weak_ind
             (fun r (m : gmap string jsfun) =>
                forall k, r !! k = match m !! k with
                                   | Some value => Some (wrapper value)
                                   | None => methods !! k
                                   end)).
    - intros k. rewrite lookup_empty. reflexivity.
    - intros i x m' r Hi IH k. destruct (decide (i = k)) as [->|Hne].
      + rewrite !lookup_insert_eq. reflexivity.
      + rewrite !lookup_insert_ne by exact Hne. apply IH. }
  rewrite H. destruct (methods !! key); reflexivity.
Qed.

Lemma alias_free_insert (m : gmap string computed_value) i x :
  m !! i = None -> alias_free (<[i := x]> m) -> alias_free m.
Proof.
  intros Hi A k k' l Hk Hk'. apply (A k k' l).
  - rewrite lookup_insert_ne; [exact Hk|]. intros ->. congruence.
  - rewrite lookup_insert_ne; [exact Hk'|]. intros ->. congruence.
Qed.

Lemma wrap_computed_lookup (computed : gmap string computed_value)
    (acc : gmap loc accessor) :
  alias_free computed ->
  (forall l k, computed !! k = Some (CObject l) ->
               wrap_computed computed acc !! l = wrap_setter <$> acc !! l)
  /\ (forall l, (forall k, computed !! k <> Some (CObject l)) ->
                wrap_computed computed acc !! l = acc !! l).
Proof.
  unfold wrap_computed.
  apply (map_fold_weak_ind
           (fun r (m : gmap string computed_value) =>
              alias_free m ->
              (forall l k, m !! k = Some (CObject l) -> r !! l = wrap_setter <$> acc !! l)
              /\ (forall l, (forall k, m !! k <> Some (CObject l)) -> r !! l = acc !! l))).
  - intros _. split.
    + intros l k Hk. rewrite lookup_empty in Hk. discriminate.
    + reflexivity.
  - intros i x m r Hi IH A.
    destruct (IH (alias_free_insert _ _ _ Hi A)) as [IH1 IH2].
    destruct x as [getter|l0].
    + split.
      * intros l k Hk. destruct (decide (i = k)) as [->|Hne].
        -- rewrite lookup_insert_eq in Hk. discriminate.
        -- rewrite lookup_insert_ne in Hk by exact Hne. exact (IH1 l k Hk).
      * intros l Hl. apply IH2. intros k Hk. apply (Hl k).
        rewrite lookup_insert_ne; [exact Hk|]. intros ->. congruence.
    + assert (Hfresh : forall k, m !! k <> Some (CObject l0)).
      { intros k Hk. assert (k = i) as ->; [|congruence].
        apply (A k i l0).
        - rewrite lookup_insert_ne; [exact Hk|]. intros ->. congruence.
        - apply lookup_insert_eq. }
      split.
      * intros l k Hk. destruct (decide (i = k)) as [->|Hne].
        -- rewrite lookup_insert_eq in Hk. injection Hk as ->.
           rewrite lookup_alter_eq, (IH2 l Hfresh). reflexivity.
        -- rewrite lookup_insert_ne in Hk by exact Hne.
           rewrite lookup_alter_ne; [exact (IH1 l k Hk)|].
           intros ->. exact (Hfresh k Hk).
      * intros l Hl. rewrite lookup_alter_ne.
        -- apply IH2. intros k Hk. apply (Hl k).
           rewrite lookup_insert_ne; [exact Hk|]. intros ->. congruence.
        -- intros ->. apply (Hl i). apply lookup_insert_eq.
Qed.

Lemma wrap_methods_fmap (methods : gmap string jsfun) :
  wrap_methods methods = wrapper <$> methods.
Proof. apply map_eq. intros key. rewrite wrap_methods_lookup, lookup_fmap. reflexivity. Qed.

Lemma wrapper_counted value args this n :
  _mutex this = Count n ->
  wrapper value args this = value args {| _mutex := Count (n + 1); fields := fields this |}.
Proof. intros H. unfold wrapper, mutex_add, set_mutex. rewrite H. reflexivity. Qed.

Lemma wrap_computed_accessor computed acc key l a :
  alias_free computed -> computed !! key = Some (CObject l) -> acc !! l = Some a ->
  wrap_computed computed acc !! l = Some {| get := get a; set := wrapper <$> set a |}.
Proof.
  intros A Hk Ha. rewrite (proj1 (wrap_computed_lookup computed acc A) l key Hk), Ha.
  reflexivity.
Qed.

(** C7.  With the guard installed, the function stored under every key of
    the methods mapping is the wrapper of the function that was there, and the
    [set] of every accessor object held by the computed mapping is the wrapper
    of the [set] that was there; its [get] is the one that was there, an
    accessor object without [set] is as it was, and so is every accessor
    object that the computed mapping does not hold.  Called on a receiver
    whose counter is [n], the wrapper runs the original with the same
    arguments on the same receiver with the counter at [n + 1], and its
    outcome is the original's. *)
Theorem C7_guard_wraps :
  (forall value args this n,
      _mutex this = Count n ->
      wrapper value args this
      = value args {| _mutex := Count (n + 1); fields := fields this |})
  /\ (forall options h methods key,
        method_maps h !! vm.methods options = Some methods ->
        exists wrapped,
          method_maps (install_guard options h) !! vm.methods options = Some wrapped
          /\ wrapped !! key = wrapper <$> methods !! key)
  /\ (forall options h key l a,
        alias_free (vm.computed options) ->
        vm.computed options !! key = Some (CObject l) ->
        accessors h !! l = Some a ->
        accessors (install_guard options h) !! l
        = Some {| get := get a; set := wrapper <$> set a |}
        /\ (set a = None -> accessors (install_guard options h) !! l = Some a))
  /\ (forall options h l,
        alias_free (vm.computed options) ->
        (forall key, vm.computed options !! key <> Some (CObject l)) ->
        accessors (install_guard options h) !! l = accessors h !! l).
Proof.
  split; [exact wrapper_counted|]. split; [|split].
  - intros options h methods key Hm. exists (wrap_methods methods). split.
    + simpl. rewrite lookup_alter_eq, Hm. reflexivity.
    + apply wrap_methods_lookup.
  - intros options h key l a A Hk Ha.
    pose proof (wrap_computed_accessor _ _ _ _ _ A Hk Ha) as H. split; [exact H|].
    intros Hs. simpl. rewrite H. destruct a as [g s]. simpl in *. rewrite Hs. reflexivity.
  - intros options h l A Hl. simpl.
    exact (proj2 (wrap_computed_lookup _ _ A) l Hl).
Qed.

Lemma programmer_alias_free : alias_free programmer_computed.
Proof.
  intros k k' l Hk Hk'. unfold programmer_computed in *.
  apply lookup_singleton_Some in Hk as [<- _].
  apply lookup_singleton_Some in Hk' as [<- _]. reflexivity.
Qed.

Lemma C7_witness :
  (wrapper setFirstName [VPrim (Str "Joe")] (Instance (Count 0) [])
   = setFirstName [VPrim (Str "Joe")] (Instance (Count 1) []))
  /\ (exists wrapped,
        method_maps (install_guard programmer_vm programmer_heap) !! 1%nat = Some wrapped
        /\ wrapped !! "setFirstName" = Some (wrapper setFirstName))
  /\ accessors (install_guard programmer_vm programmer_heap) !! 0%nat
     = Some {| get := Some getFullName; set := Some (wrapper setFullName) |}
  /\ accessors (install_guard programmer_vm programmer_heap) !! 5%nat = None.
Proof.
  split; [|split; [|split]].
  - exact (proj1 C7_guard_wraps setFirstName [VPrim (Str "Joe")] (Instance (Count 0) []) 0
             eq_refl).
  - destruct (proj1 (proj2 C7_guard_wraps) programmer_vm programmer_heap
                {[ "setFirstName" := setFirstName ]} "setFirstName") as (wrapped & H1 & H2).
    + reflexivity.
    + exists wrapped. split; [exact H1|]. rewrite H2. reflexivity.
  - refine (proj1 (proj1 (proj2 (proj2 C7_guard_wraps)) programmer_vm programmer_heap
                     "fullName" 0%nat {| get := Some getFullName; set := Some setFullName |}
                     programmer_alias_free _ _)); reflexivity.
  - refine (proj2 (proj2 (proj2 C7_guard_wraps)) programmer_vm programmer_heap 5%nat
              programmer_alias_free _).
    intros key Hk. change (vm.computed programmer_vm) with programmer_computed in Hk.
    unfold programmer_computed in Hk.
    apply lookup_singleton_Some in Hk as [_ Hk]. discriminate.
Defined.

(** ** C10: [model] writes to the caller's objects *)

(** With the guard installed, the heap that [model] leaves is the heap after
    the two wrapping loops, whether or not the validation that follows
    raises. *)
Lemma model_heap so mo h lm :
  modelOptions.immutable mo <> Some false ->
  constructible so ->
  storeOptions.methods so = Some lm ->
  snd (model false so mo h)
  = {| accessors := wrap_computed (default ∅ (storeOptions.computed so)) (accessors h);
       method_maps := alter wrap_methods lm (method_maps h) |}.
Proof.
  intros Hi (Hd & (marker & Hm & Hmf) & Hw) Hl. unfold model.
  rewrite Hd, Hm, Hmf, Hl. cbn [negb].
  rewrite bool_decide_eq_false_2 by exact Hi. cbn [negb andb].
  destruct (has_schema so) as [s|] eqn:Hs.
  - destruct (Hw s eq_refl) as [watchProps ->].
    cbn [vm.data]. destruct (deepTypeCheck _ _ _); reflexivity.
  - reflexivity.
Qed.

Lemma model_heap_methods so mo h lm methods :
  modelOptions.immutable mo <> Some false ->
  constructible so ->
  storeOptions.methods so = Some lm ->
  method_maps h !! lm = Some methods ->
  method_maps (snd (model false so mo h)) !! lm = Some (wrapper <$> methods).
Proof.
  intros Hi Hc Hl Hm. rewrite (model_heap so mo h lm Hi Hc Hl). simpl.
  rewrite lookup_alter_eq, Hm. simpl. rewrite wrap_methods_fmap. reflexivity.
Qed.

Lemma model_heap_accessor so mo h lm computed key l a :
  modelOptions.immutable mo <> Some false ->
  constructible so ->
  storeOptions.methods so = Some lm ->
  storeOptions.computed so = Some computed ->
  alias_free computed ->
  computed !! key = Some (CObject l) ->
  accessors h !! l = Some a ->
  accessors (snd (model false so mo h)) !! l = Some (wrap_setter a).
Proof.
  intros Hi Hc Hl Hcomp A Hk Ha. rewrite (model_heap so mo h lm Hi Hc Hl). simpl.
  rewrite Hcomp. simpl. apply (wrap_computed_accessor _ _ _ _ _ A Hk Ha).
Qed.

(** C10.  With the guard installed (not production, [immutable] not
    [false]), [model] writes to the objects it was given: after the call the
    object [storeOptions.methods] holds, under every key, the wrapper of the
    function that was there, and every accessor object of
    [storeOptions.computed] holds as [set] the wrapper of the [set] that was
    there.  A second call of [model] on the same [storeOptions] wraps the
    wrappers again. *)
Theorem C10_model_wraps_in_place :
  forall so mo h lm methods,
    modelOptions.immutable mo <> Some false ->
    constructible so ->
    storeOptions.methods so = Some lm ->
    method_maps h !! lm = Some methods ->
    let h1 := snd (model false so mo h) in
    let h2 := snd (model false so mo h1) in
    method_maps h1 !! lm = Some (wrapper <$> methods)
    /\ method_maps h2 !! lm = Some (wrapper <$> (wrapper <$> methods))
    /\ (forall computed key l a,
          storeOptions.computed so = Some computed ->
          alias_free computed ->
          computed !! key = Some (CObject l) ->
          accessors h !! l = Some a ->
          accessors h1 !! l = Some {| get := get a; set := wrapper <$> set a |}
          /\ accessors h2 !! l
             = Some {| get := get a; set := wrapper <$> (wrapper <$> set a) |}).
Proof.
  intros so mo h lm methods Hi Hc Hl Hm h1 h2.
  pose proof (model_heap_methods so mo h lm methods Hi Hc Hl Hm) as H1.
  split; [exact H1|]. split.
  - exact (model_heap_methods so mo h1 lm _ Hi Hc Hl H1).
  - intros computed key l a Hcomp A Hk Ha.
    pose proof (model_heap_accessor so mo h lm computed key l a Hi Hc Hl Hcomp A Hk Ha)
      as Ha1.
    split; [exact Ha1|].
    exact (model_heap_accessor so mo h1 lm computed key l _ Hi Hc Hl Hcomp A Hk Ha1).
Qed.

Lemma programmer_constructible : constructible programmer.
Proof.
  split; [reflexivity|]. split.
  - exists (VPrim Undefined). split; reflexivity.
  - intros s [= <-]. eexists. reflexivity.
Qed.

Lemma C10_witness :
  method_maps (snd (model false programmer (modelOptions.Make None) programmer_heap)) !! 1%nat
  = Some (wrapper <$> {[ "setFirstName" := setFirstName ]})
  /\ accessors (snd (model false programmer (modelOptions.Make None) programmer_heap)) !! 0%nat
     = Some {| get := Some getFullName; set := Some (wrapper setFullName) |}
  /\ accessors (snd (model false programmer (modelOptions.Make None)
                       (snd (model false programmer (modelOptions.Make None) programmer_heap))))
       !! 0%nat
     = Some {| get := Some getFullName; set := Some (wrapper (wrapper setFullName)) |}.
Proof.
  pose proof (C10_model_wraps_in_place programmer (modelOptions.Make None) programmer_heap
                1%nat {[ "setFirstName" := setFirstName ]}
                ltac:(discriminate) programmer_constructible eq_refl eq_refl)
    as (H1 & _ & H3).
  split; [exact H1|].
  exact (H3 programmer_computed "fullName" 0%nat
           {| get := Some getFullName; set := Some setFullName |}
           eq_refl programmer_alias_free eq_refl eq_refl).
Defined.

Example programmer_model_returns :
  exists c, fst (model false programmer (modelOptions.Make None) programmer_heap) = Ok c
            /\ _mutex (state c) = Count 0
            /\ watchers c = [("firstName", MutexWatcher); ("lastName", MutexWatcher);
                             ("firstName", TypeCheckWatcher); ("lastName", TypeCheckWatcher)].
Proof. eexists. split; [reflexivity|]. split; reflexivity. Qed.

(** ** C8: [maybeNull] *)

Lemma is_null_false v : v <> VPrim Null -> is_null v = false.
Proof. destruct v as [[]| |]; try reflexivity. congruence. Qed.

Lemma is_null_true v : is_null v = true -> v = VPrim Null.
Proof. destruct v as [[]| |]; try discriminate. reflexivity. Qed.

Lemma null_or_not v : v = VPrim Null \/ v <> VPrim Null.
Proof.
  destruct (is_null v) eqn:E; [left; apply is_null_true, E|right].
  intros ->. discriminate.
Qed.

Lemma maybeNull_nested inner :
  nested_schema inner = true ->
  types.maybeNull inner = Ok (SFun (maybeNull_schema_fn inner)).
Proof. destruct inner; try discriminate; reflexivity. Qed.

Lemma maybeNull_schema_call inner v path :
  v <> VPrim Null ->
  apply (SFun (maybeNull_schema_fn inner)) v path
  = (deepTypeCheck v inner path ;;; Ok (VPrim (Bool true))).
Proof. intros Hv. simpl. rewrite (is_null_false v Hv). reflexivity. Qed.

(** C8.  [maybeNull(inner)] for a nested schema (an object or an array node)
    gives a predicate that returns [true] on [null] and on any other value
    runs [deepTypeCheck(v, inner, path)]: it returns [true] when that
    returns, raises the same error when that raises, and never returns a
    value other than [true].  For a function [inner] it gives a predicate
    whose result is [true] exactly when [v] is [null] or [inner(v)] is
    [true].  [maybeNull(string)] returns [true] on [null] and on every
    string, and [false] on [undefined], numbers, booleans, arrays and
    objects. *)
Theorem C8_maybeNull :
  (forall inner,
      nested_schema inner = true ->
      types.maybeNull inner = Ok (SFun (maybeNull_schema_fn inner))
      /\ (forall path,
            apply (SFun (maybeNull_schema_fn inner)) (VPrim Null) path = Ok (VPrim (Bool true)))
      /\ (forall v path,
            v <> VPrim Null ->
            (deepTypeCheck v inner path = Ok tt ->
             apply (SFun (maybeNull_schema_fn inner)) v path = Ok (VPrim (Bool true)))
            /\ (forall e, deepTypeCheck v inner path = Err e ->
                          apply (SFun (maybeNull_schema_fn inner)) v path = Err e))
      /\ (forall v path r,
            apply (SFun (maybeNull_schema_fn inner)) v path = Ok r -> r = VPrim (Bool true)))
  /\ (forall f,
        types.maybeNull (SFun f) = Ok (SFun (maybeNull_type_fn (SFun f)))
        /\ (forall v path,
              apply (SFun (maybeNull_type_fn (SFun f))) v path = Ok (VPrim (Bool true))
              <-> v = VPrim Null \/ apply (SFun f) v None = Ok (VPrim (Bool true))))
  /\ (exists nullable_string,
        types.maybeNull types.string = Ok nullable_string
        /\ (forall path, apply nullable_string (VPrim Null) path = Ok (VPrim (Bool true)))
        /\ (forall s path, apply nullable_string (VPrim (Str s)) path = Ok (VPrim (Bool true)))
        /\ (forall path, apply nullable_string (VPrim Undefined) path = Ok (VPrim (Bool false)))
        /\ (forall n path, apply nullable_string (VPrim (Num n)) path = Ok (VPrim (Bool false)))
        /\ (forall b path, apply nullable_string (VPrim (Bool b)) path = Ok (VPrim (Bool false)))
        /\ (forall elems path, apply nullable_string (VArr elems) path = Ok (VPrim (Bool false)))
        /\ (forall props path, apply nullable_string (VObj props) path = Ok (VPrim (Bool false)))).
Proof.
  split; [|split].
  - intros inner Hn. split; [exact (maybeNull_nested inner Hn)|].
    split; [reflexivity|]. split.
    + intros v path Hv. rewrite (maybeNull_schema_call inner v path Hv). split.
      * intros ->. reflexivity.
      * intros e ->. reflexivity.
    + intros v path r. destruct (null_or_not v) as [->|Hv].
      * simpl. congruence.
      * rewrite (maybeNull_schema_call inner v path Hv).
        destruct (deepTypeCheck v inner path); simpl; congruence.
  - intros f. split; [reflexivity|]. intros v path.
    destruct (null_or_not v) as [->|Hv].
    + simpl. split; auto.
    + change (apply (SFun (maybeNull_type_fn (SFun f))) v path)
        with (if is_null v then Ok (VPrim (Bool true)) else apply (SFun f) v None).
      rewrite (is_null_false v Hv). split; [auto|]. intros [?|H]; [contradiction|exact H].
  - exists (SFun (maybeNull_type_fn types.string)).
    repeat split; reflexivity.
Qed.

Lemma C8_witness :
  types.maybeNull created_schema = Ok (SFun (maybeNull_schema_fn created_schema))
  /\ apply (SFun (maybeNull_schema_fn created_schema)) (VPrim Null) (Some [Key "<book>"; Key "created"])
     = Ok (VPrim (Bool true))
  /\ apply (SFun (maybeNull_schema_fn created_schema))
       (VObj [("at", VPrim (Str "2020-01-01")); ("by", VPrim (Str "jay"))])
       (Some [Key "<book>"; Key "created"])
     = Ok (VPrim (Bool true))
  /\ apply (SFun (maybeNull_schema_fn created_schema))
       (VObj [("at", VPrim (Str "2020-01-01"))]) (Some [Key "<book>"; Key "created"])
     = Err (TypeError "undefined data property at path: <book>.created.by").
Proof.
  destruct (proj1 C8_maybeNull created_schema eq_refl) as (H1 & H2 & H3 & _).
  split; [exact H1|]. split; [apply H2|]. split.
  - refine (proj1 (H3 (VObj [("at", VPrim (Str "2020-01-01")); ("by", VPrim (Str "jay"))])
                     (Some [Key "<book>"; Key "created"]) _) _);
      [discriminate|reflexivity].
  - refine (proj2 (H3 (VObj [("at", VPrim (Str "2020-01-01"))])
                     (Some [Key "<book>"; Key "created"]) _) _ _);
      [discriminate|reflexivity].
Defined.

(** ** C9: [types.model] *)

(** C9, what the code does.  The predicate of [types.model(name)] returns
    [true] on a model instance of that name, [false] on a model instance of
    another name, and the falsy [undefined] on numbers, strings, booleans,
    arrays and plain objects without the marker; on [null] and on
    [undefined] it does not return: reading [_isVue] raises the host's
    TypeError. *)
Theorem C9_model_predicate :
  (forall name other fields path,
      apply (types.model name) (vue_instance other fields) path
      = Ok (VPrim (Bool (String.eqb other name))))
  /\ (forall name path,
        apply (types.model name) (VPrim Null) path
        = Err (HostTypeError (PropertyOfNullish "_isVue")))
  /\ (forall name path,
        apply (types.model name) (VPrim Undefined) path
        = Err (HostTypeError (PropertyOfNullish "_isVue")))
  /\ (forall name n path, apply (types.model name) (VPrim (Num n)) path = Ok (VPrim Undefined))
  /\ (forall name s path, apply (types.model name) (VPrim (Str s)) path = Ok (VPrim Undefined))
  /\ (forall name b path, apply (types.model name) (VPrim (Bool b)) path = Ok (VPrim Undefined))
  /\ (forall name elems path, apply (types.model name) (VArr elems) path = Ok (VPrim Undefined))
  /\ (forall name path, apply (types.model name) (VObj []) path = Ok (VPrim Undefined)).
Proof.
  repeat split; reflexivity.
Qed.

(** Under a schema, a [null] where a model is expected surfaces as the host's
    error, without the path. *)
Example model_field_null :
  deepTypeCheck (VObj [("today", VPrim Null)])
    (SObj [("today", types.model "weather")]) (Some [Key "<forecast>"])
  = Err (HostTypeError (PropertyOfNullish "_isVue")).
Proof. reflexivity. Qed.

(** * Further properties of the code *)

(** ** The validator: what it never accepts, how it composes *)

Lemma stringifyPath_bind_Err {A} (p : path_arg) (k : string -> exn) :
  exists e, (sp <- stringifyPath p ;; @Err A (k sp)) = Err e
            /\ forall sp, stringifyPath p = Ok sp -> e = k sp.
Proof.
  destruct (stringifyPath p) as [sp|e] eqn:E; simpl.
  - exists (k sp). split; [reflexivity|]. intros sp' [= <-]. reflexivity.
  - exists e. split; [reflexivity|]. discriminate.
Qed.

Lemma undefined_never_validates :
  forall s p,
    exists e,
      deepTypeCheck (VPrim Undefined) s p = Err e
      /\ forall sp, stringifyPath p = Ok sp ->
           e = if truthy_schema s
               then TypeError ("undefined data property at path: " +:+ sp)
               else Error ("invalid schema property for path: " +:+ sp).
Proof.
  intros s p. destruct (truthy_schema s) eqn:T.
  - rewrite deepTypeCheck_undefined by exact T.
    apply (stringifyPath_bind_Err p
             (fun sp => TypeError ("undefined data property at path: " +:+ sp))).
  - rewrite deepTypeCheck_falsy by exact T.
    apply (stringifyPath_bind_Err p
             (fun sp => Error ("invalid schema property for path: " +:+ sp))).
Qed.

(** X1.  [deepTypeCheck] never returns on [undefined], whatever the schema
    node (a predicate that accepts everything included) and whatever the
    path: it raises, and with a path that has a rendering the error is
    "invalid schema property" for a falsy node and "undefined data property"
    for any other node. *)
Theorem X1_undefined_never_validates :
  forall s p,
    exists e,
      deepTypeCheck (VPrim Undefined) s p = Err e
      /\ forall sp, stringifyPath p = Ok sp ->
           e = if truthy_schema s
               then TypeError ("undefined data property at path: " +:+ sp)
               else Error ("invalid schema property for path: " +:+ sp).
Proof. exact undefined_never_validates. Qed.

Lemma X1_witness :
  exists e,
    deepTypeCheck (VPrim Undefined) (types.union [types.enum [Undefined]; types.string])
      (Some [Key "<m>"; Key "x"]) = Err e
    /\ forall sp, stringifyPath (Some [Key "<m>"; Key "x"]) = Ok sp ->
         e = if truthy_schema (types.union [types.enum [Undefined]; types.string])
             then TypeError ("undefined data property at path: " +:+ sp)
             else Error ("invalid schema property for path: " +:+ sp).
Proof.
  exact (X1_undefined_never_validates (types.union [types.enum [Undefined]; types.string])
           (Some [Key "<m>"; Key "x"])).
Defined.

Lemma deepTypeCheck_obj_any v entries p :
  deepTypeCheck v (SObj entries) p =
    if is_undefined v then
      sp <- stringifyPath p ;;
      Err (TypeError ("undefined data property at path: " +:+ sp))
    else
      forEach (fun '(key, sub) _ =>
                 x <- get_prop v key ;;
                 if isObject_schema sub && negb (isObject x) then
                   p' <- spread p (Key key) ;;
                   sp <- stringifyPath p' ;;
                   Err (TypeError ("expected object for data property at path " +:+ sp
                                   +:+ ", Got: " +:+ show x))
                 else
                   p' <- spread p (Key key) ;;
                   deepTypeCheck x sub p') entries.
Proof. reflexivity. Qed.

Lemma forEach_from_index {A} (f : A -> nat -> result unit) (l : list A) (i j : nat) :
  (forall x n m, f x n = f x m) ->
  forEach_from f l i = forEach_from f l j.
Proof.
  intros Hf. revert i j. induction l as [|x l IH]; intros i j; [reflexivity|].
  cbn [forEach_from]. rewrite (Hf x i j), (IH (S i) (S j)). reflexivity.
Qed.

(** X2.  Validating against an object schema whose keys are those of [a]
    followed by those of [b] is validating against [a] and then, if that
    returns, against [b]: an error found among the keys of [a] is the
    outcome whatever [b] holds, and the whole returns exactly when both
    parts return. *)
Theorem X2_object_schema_sequential :
  forall v a b p,
    deepTypeCheck v (SObj (a ++ b)) p
    = (deepTypeCheck v (SObj a) p ;;; deepTypeCheck v (SObj b) p).
Proof.
  intros v a b p. rewrite !deepTypeCheck_obj_any.
  destruct (is_undefined v) eqn:Eu.
  - destruct (stringifyPath p); reflexivity.
  - unfold forEach. rewrite forEach_from_app.
    destruct (forEach_from _ a 0%nat) as [[]|e]; [|reflexivity]. cbn [bind].
    apply forEach_from_index. intros [key sub] n m. reflexivity.
Qed.

(** A loop that returns has returned on every element. *)
Lemma forEach_from_Ok_inv {A} (f : A -> nat -> result unit) (l : list A) (i : nat) :
  forEach_from f l i = Ok tt ->
  forall j x, l !! j = Some x -> f x (i + j)%nat = Ok tt.
Proof.
  revert i. induction l as [|y l IH]; intros i H j x Hj; [discriminate|].
  cbn [forEach_from] in H. destruct (f y i) as [[]|e] eqn:E; [|discriminate].
  cbn [bind] in H. destruct j as [|j].
  - injection Hj as <-. rewrite Nat.add_0_r. exact E.
  - replace (i + S j)%nat with (S i + j)%nat by lia. apply (IH _ H). exact Hj.
Qed.

Lemma deepTypeCheck_Ok_defined v s p :
  deepTypeCheck v s p = Ok tt -> v <> VPrim Undefined /\ truthy_schema s = true.
Proof.
  intros H. split.
  - intros ->. destruct (undefined_never_validates s p) as (e & He & _). congruence.
  - destruct (truthy_schema s) eqn:T; [reflexivity|].
    rewrite deepTypeCheck_falsy in H by exact T.
    destruct (stringifyPath p); discriminate.
Qed.

Lemma deepTypeCheck_arr_Ok v elems p :
  deepTypeCheck v (SArr elems) p = Ok tt -> exists items, v = VArr items.
Proof.
  intros H. destruct (deepTypeCheck_Ok_defined _ _ _ H) as [Hv _].
  destruct v as [pv| |]; eauto;
    rewrite deepTypeCheck_not_array in H
      by first [apply is_undefined_false, Hv|reflexivity];
    destruct (stringifyPath p); discriminate.
Qed.

Lemma entry_Ok_inv v segs key sub :
  (x <- get_prop v key ;;
   if isObject_schema sub && negb (isObject x) then
     p' <- spread (Some segs) (Key key) ;;
     sp <- stringifyPath p' ;;
     Err (TypeError ("expected object for data property at path " +:+ sp
                     +:+ ", Got: " +:+ show x))
   else
     p' <- spread (Some segs) (Key key) ;;
     deepTypeCheck x sub p') = Ok tt ->
  exists x, get_prop v key = Ok x
            /\ (isObject_schema sub = true -> isObject x = true)
            /\ deepTypeCheck x sub (Some (segs ++ [Key key])) = Ok tt.
Proof.
  destruct (get_prop v key) as [x|e]; [|discriminate]. cbn [bind spread].
  destruct (isObject_schema sub) eqn:Eo; destruct (isObject x) eqn:Ex; cbn [andb negb].
  - intros H. exists x. auto.
  - destruct (stringifyPath (Some (segs ++ [Key key]))); discriminate.
  - intros H. exists x. split; [reflexivity|]. split; [discriminate|exact H].
  - intros H. exists x. split; [reflexivity|]. split; [discriminate|exact H].
Qed.

Lemma validated_object_keys v entries segs key sub :
  deepTypeCheck v (SObj entries) (Some segs) = Ok tt ->
  (key, sub) ∈ entries ->
  exists x,
    get_prop v key = Ok x
    /\ x <> VPrim Undefined
    /\ truthy_schema sub = true
    /\ (isObject_schema sub = true -> isObject x = true)
    /\ (isArray_schema sub = true -> Array_isArray x = true)
    /\ deepTypeCheck x sub (Some (segs ++ [Key key])) = Ok tt.
Proof.
  intros H Hin. destruct (deepTypeCheck_Ok_defined _ _ _ H) as [Hv _].
  rewrite deepTypeCheck_obj in H by apply is_undefined_false, Hv.
  apply list_elem_of_lookup in Hin as [j Hj].
  pose proof (forEach_from_Ok_inv _ _ _ H j _ Hj) as Hc. cbv beta iota in Hc.
  destruct (entry_Ok_inv _ _ _ _ Hc) as (x & Hx & Ho & Hd).
  exists x. destruct (deepTypeCheck_Ok_defined _ _ _ Hd) as [Hxd Ht].
  repeat split; try assumption.
  intros Ha. destruct sub; try discriminate.
  destruct (deepTypeCheck_arr_Ok _ _ _ Hd) as [items ->]. reflexivity.
Qed.

(** X3.  When [deepTypeCheck] returns on a value against an object schema,
    then under every key of the schema the value has a property that is not
    [undefined], that is an object where the sub-schema is an object and an
    array where the sub-schema is an array, and on which [deepTypeCheck]
    returns against the sub-schema with the path extended by the key. *)
Theorem X3_validated_object_keys :
  forall v entries segs key sub,
    deepTypeCheck v (SObj entries) (Some segs) = Ok tt ->
    (key, sub) ∈ entries ->
    exists x,
      get_prop v key = Ok x
      /\ x <> VPrim Undefined
      /\ truthy_schema sub = true
      /\ (isObject_schema sub = true -> isObject x = true)
      /\ (isArray_schema sub = true -> Array_isArray x = true)
      /\ deepTypeCheck x sub (Some (segs ++ [Key key])) = Ok tt.
Proof. exact validated_object_keys. Qed.

Lemma X3_witness :
  deepTypeCheck user_data user_schema (Some [Key "<user>"]) = Ok tt
  /\ ("id", types.number) ∈ [("id", types.number)]
  /\ exists x,
       get_prop user_data "id" = Ok x
       /\ x <> VPrim Undefined
       /\ truthy_schema types.number = true
       /\ (isObject_schema types.number = true -> isObject x = true)
       /\ (isArray_schema types.number = true -> Array_isArray x = true)
       /\ deepTypeCheck x types.number (Some ([Key "<user>"] ++ [Key "id"])) = Ok tt.
Proof.
  split; [reflexivity|]. split; [apply list_elem_of_here|].
  apply (X3_validated_object_keys user_data [("id", types.number)] [Key "<user>"]
           "id" types.number); [reflexivity|apply list_elem_of_here].
Defined.

(** ** The validator decides the structural match on key-checked schemas *)

Lemma isObject_true_inv v : isObject v = true -> exists props, v = VObj props.
Proof.
  unfold isObject. destruct v as [p| |]; simpl; intros H; try discriminate; eauto.
  destruct p; simpl in H; rewrite ?andb_false_r in H; discriminate.
Qed.

Lemma typeCheck_Ok_inv v validator p :
  typeCheck v validator (Some p) = Ok tt -> satisfies validator v p.
Proof.
  unfold typeCheck, typeCheck_with, satisfies, apply.
  destruct (apply_with call validator v (Some p)) as [r|e]; [|discriminate].
  cbn [bind]. destruct (truthy r) eqn:T.
  - intros _. exists r. split; [reflexivity|exact T].
  - destruct (stringifyPath (Some p)); discriminate.
Qed.

Lemma key_checked_sound s :
  forall v p,
    key_checked s = true ->
    (isObject_schema s = true -> isObject v = true) ->
    deepTypeCheck v s (Some p) = Ok tt ->
    matches s v p /\ defined_leaves s v.
Proof.
  induction s as [p0|elems _|entries IH|f] using schema_tree_ind; intros v p K Hobj H.
  - exfalso. destruct (deepTypeCheck_Ok_defined _ _ _ H) as [Hv Ht].
    simpl in Ht. simpl in H. rewrite Ht, (is_undefined_false _ Hv) in H.
    discriminate.
  - destruct (deepTypeCheck_arr_Ok _ _ _ H) as [items ->].
    destruct elems as [|s0 rest].
    + split; [exists items; split; [reflexivity|exact I]|exact I].
    + destruct s0 as [?|?|?|f]; try discriminate. split.
      * exists items. split; [reflexivity|]. intros i x Hi.
        simpl in H. pose proof (forEach_from_Ok_inv _ _ _ H i x Hi) as Hc.
        simpl in Hc. apply (typeCheck_Ok_inv x (SFun f)). exact Hc.
      * exact I.
  - destruct (isObject_true_inv v (Hobj eq_refl)) as [props ->].
    assert (Hall : forall key sub, (key, sub) ∈ entries ->
               matches sub (default (VPrim Undefined) (assoc key props)) (p ++ [Key key])
               /\ defined_leaves sub (default (VPrim Undefined) (assoc key props))).
    { intros key sub Hin.
      destruct (validated_object_keys _ _ _ _ _ H Hin) as (x & Hx & _ & _ & Ho & _ & Hd).
      rewrite get_prop_obj in Hx. injection Hx as <-.
      apply (proj1 (Forall_forall _ _) IH (key, sub) Hin); [|exact Ho|exact Hd].
      simpl in K. apply (proj1 (forallb_forall _ _) K (key, sub)).
      apply list_elem_of_In, Hin. }
    split.
    + exists props. split; [reflexivity|]. apply All_Forall, Forall_forall.
      intros [key sub] Hin. apply (Hall key sub Hin).
    + simpl. apply All_Forall, Forall_forall. intros [key sub] Hin x Hx.
      injection Hx as <-. apply (Hall key sub Hin).
  - destruct (deepTypeCheck_Ok_defined _ _ _ H) as [Hv _].
    rewrite deepTypeCheck_leaf in H by apply is_undefined_false, Hv.
    split; [apply typeCheck_Ok_inv, H|exact Hv].
Qed.

(** X4.  On a schema in which every array node has no [schema[0]] or a
    function there, and for a value that is an object where the schema is an
    object, [deepTypeCheck] returns exactly when the value structurally
    matches the schema and no leaf value it receives is [undefined]. *)
Theorem X4_validation_is_structural_match :
  forall s v p,
    key_checked s = true ->
    (isObject_schema s = true -> isObject v = true) ->
    (deepTypeCheck v s (Some p) = Ok tt <-> matches s v p /\ defined_leaves s v).
Proof.
  intros s v p K Hobj. split.
  - apply key_checked_sound; assumption.
  - intros [M D]. apply deepTypeCheck_matches; assumption.
Qed.

Lemma X4_witness :
  key_checked user_schema = true
  /\ (isObject_schema user_schema = true -> isObject user_data = true)
  /\ (deepTypeCheck user_data user_schema (Some [Key "<user>"]) = Ok tt
      <-> matches user_schema user_data [Key "<user>"]
          /\ defined_leaves user_schema user_data).
Proof.
  split; [reflexivity|]. split; [reflexivity|].
  apply (X4_validation_is_structural_match user_schema user_data [Key "<user>"]);
    reflexivity.
Defined.

(** X5.  An array node is read through [schema[0]] only: further elements
    of the schema array change nothing.  Without a [schema[0]] the node
    accepts every array, whatever it holds, and nothing else. *)
Theorem X5_array_node :
  (forall v s0 rest p,
      deepTypeCheck v (SArr (s0 :: rest)) p = deepTypeCheck v (SArr [s0]) p)
  /\ (forall v p, deepTypeCheck v (SArr []) p = Ok tt <-> Array_isArray v = true).
Proof.
  split.
  - intros v s0 rest p. reflexivity.
  - intros v p. split.
    + intros H. destruct (deepTypeCheck_arr_Ok _ _ _ H) as [items ->]. reflexivity.
    + destruct v as [pv| |]; try discriminate. reflexivity.
Qed.

(** ** The functions of [types] *)

Lemma some_total {A} (f : A -> result value) (l : list A) :
  (forall x, x ∈ l -> exists r, f x = Ok r) ->
  exists b, some f l = Ok b
            /\ (b = true <-> exists x r, x ∈ l /\ f x = Ok r /\ truthy r = true).
Proof.
  induction l as [|x l IH]; intros T.
  - exists false. split; [reflexivity|]. split; [discriminate|].
    intros (x & r & Hin & _). apply elem_of_nil in Hin. contradiction.
  - destruct (T x (list_elem_of_here _ _)) as [r Hr]. cbn [some]. rewrite Hr. cbn [bind].
    destruct (truthy r) eqn:Tr.
    + exists true. split; [reflexivity|]. split; [|reflexivity].
      intros _. exists x, r. split; [apply list_elem_of_here|]. split; assumption.
    + destruct (IH (fun y Hy => T y (list_elem_of_further _ _ _ Hy))) as (b & Hb & Hiff).
      exists b. split; [exact Hb|]. rewrite Hiff. split.
      * intros (y & r' & Hin & H1 & H2). exists y, r'.
        split; [apply list_elem_of_further, Hin|]. split; assumption.
      * intros (y & r' & Hin & H1 & H2). apply elem_of_cons in Hin as [->|Hin].
        -- congruence.
        -- exists y, r'. split; [exact Hin|]. split; assumption.
Qed.

Lemma union_call args v path :
  apply (types.union args) v path
  = (b <- some (fun arg => apply arg v None) args ;; Ok (VPrim (Bool b))).
Proof. reflexivity. Qed.

(** X6.  When every argument of [union] returns on [v] (none raises), the
    union returns a boolean, [true] exactly when some argument returns a
    truthy value; so the order of the arguments does not matter then. *)
Theorem X6_union_is_or :
  forall args v path,
    (forall arg, arg ∈ args -> exists r, apply arg v None = Ok r) ->
    (exists b,
        apply (types.union args) v path = Ok (VPrim (Bool b))
        /\ (b = true <->
            exists arg r, arg ∈ args /\ apply arg v None = Ok r /\ truthy r = true))
    /\ (forall args', args ≡ₚ args' ->
          apply (types.union args') v path = apply (types.union args) v path).
Proof.
  intros args v path T.
  destruct (some_total (fun arg => apply arg v None) args T) as (b & Hb & Hiff).
  split.
  - exists b. rewrite union_call, Hb. split; [reflexivity|exact Hiff].
  - intros args' Hperm.
    assert (T' : forall arg, arg ∈ args' -> exists r, apply arg v None = Ok r).
    { intros arg Hin. apply T. rewrite Hperm. exact Hin. }
    destruct (some_total (fun arg => apply arg v None) args' T') as (b' & Hb' & Hiff').
    rewrite !union_call, Hb, Hb'. cbn [bind]. do 3 f_equal.
    destruct b, b'; try reflexivity.
    + destruct (proj1 Hiff eq_refl) as (x & r & Hin & H1 & H2).
      apply Hiff'. exists x, r. rewrite <- Hperm. auto.
    + destruct (proj1 Hiff' eq_refl) as (x & r & Hin & H1 & H2).
      symmetry. apply Hiff. exists x, r. rewrite Hperm. auto.
Qed.

Lemma X6_witness :
  (exists b,
      apply (types.union [types.string; types.number]) (VPrim (Num 3)) None
      = Ok (VPrim (Bool b))
      /\ (b = true <->
          exists arg r, arg ∈ [types.string; types.number]
                        /\ apply arg (VPrim (Num 3)) None = Ok r /\ truthy r = true))
  /\ apply (types.union [types.number; types.string]) (VPrim (Num 3)) None
     = apply (types.union [types.string; types.number]) (VPrim (Num 3)) None.
Proof.
  assert (T : forall arg, arg ∈ [types.string; types.number] ->
                          exists r, apply arg (VPrim (Num 3)) None = Ok r).
  { intros arg Hin. apply elem_of_cons in Hin as [->|Hin]; [eexists; reflexivity|].
    apply list_elem_of_singleton in Hin as ->. eexists. reflexivity. }
  destruct (X6_union_is_or [types.string; types.number] (VPrim (Num 3)) None T) as [H1 H2].
  split; [exact H1|]. apply H2. apply Permutation_swap.
Defined.

Lemma some_stops {A} (f : A -> result value) (before after : list A) (x : A) :
  (forall y, y ∈ before -> exists r, f y = Ok r /\ truthy r = false) ->
  some f (before ++ x :: after)
  = (r <- f x ;; if truthy r then Ok true else some f after).
Proof.
  induction before as [|y before IH]; intros Hb; [reflexivity|].
  destruct (Hb y (list_elem_of_here _ _)) as (r & Hr & Tr).
  cbn [app some]. rewrite Hr. cbn [bind]. rewrite Tr.
  apply IH. intros z Hz. apply Hb, list_elem_of_further, Hz.
Qed.

(** X7.  [union] stops at its first argument that returns a truthy value or
    raises: when the arguments before [arg] return falsy values, a truthy
    result of [arg] makes the union [true] whatever comes after [arg] (values
    that are not functions included), and an error raised by [arg] is the
    outcome of the union. *)
Theorem X7_union_short_circuit :
  forall before arg after v path,
    (forall a, a ∈ before -> exists r, apply a v None = Ok r /\ truthy r = false) ->
    (forall r, apply arg v None = Ok r -> truthy r = true ->
               apply (types.union (before ++ arg :: after)) v path = Ok (VPrim (Bool true)))
    /\ (forall e, apply arg v None = Err e ->
                  apply (types.union (before ++ arg :: after)) v path = Err e).
Proof.
  intros before arg after v path Hb. split.
  - intros r Hr Tr.
    rewrite union_call, (some_stops _ _ _ _ Hb), Hr. cbn [bind]. rewrite Tr. reflexivity.
  - intros e He.
    rewrite union_call, (some_stops _ _ _ _ Hb), He. reflexivity.
Qed.

Lemma X7_witness :
  apply (types.union ([types.number] ++ types.string :: [SPrim (Num 5); types.model "m"]))
    (VPrim (Str "a")) None
  = Ok (VPrim (Bool true))
  /\ apply (types.union ([types.number] ++ types.model "m" :: [SFun (enum_fn [Null])]))
       (VPrim Null) None
     = Err (HostTypeError (PropertyOfNullish "_isVue")).
Proof.
  split.
  - refine (proj1 (X7_union_short_circuit [types.number] types.string
                     [SPrim (Num 5); types.model "m"] (VPrim (Str "a")) None _)
              (VPrim (Bool true)) eq_refl eq_refl).
    intros a Ha. apply list_elem_of_singleton in Ha as ->. eexists. split; reflexivity.
  - refine (proj2 (X7_union_short_circuit [types.number] (types.model "m")
                     [SFun (enum_fn [Null])] (VPrim Null) None _) _ eq_refl).
    intros a Ha. apply list_elem_of_singleton in Ha as ->. eexists. split; reflexivity.
Defined.

Lemma prim_eqb_eq (a b : prim) : prim_eqb a b = true <-> a = b.
Proof.
  destruct a, b; simpl; split; intros H; try discriminate; try reflexivity.
  - apply Bool.eqb_prop in H. congruence.
  - injection H as ->. apply Bool.eqb_reflx.
  - apply Z.eqb_eq in H. congruence.
  - injection H as ->. apply Z.eqb_refl.
  - apply String.eqb_eq in H. congruence.
  - injection H as ->. apply String.eqb_refl.
Qed.

(** X8.  The predicate of [enum(...literals)] never raises; it returns
    [true] exactly on the primitives that are among the literals, and [false]
    on everything else, arrays and objects included. *)
Theorem X8_enum_membership :
  forall literals v path,
    exists b,
      apply (types.enum literals) v path = Ok (VPrim (Bool b))
      /\ (b = true <-> exists p, v = VPrim p /\ p ∈ literals).
Proof.
  intros literals v path. exists (existsb (strict_eq v) literals).
  split; [reflexivity|]. rewrite existsb_exists. split.
  - intros (lit & Hin & Heq). destruct v as [p| |]; try discriminate.
    exists p. split; [reflexivity|]. apply prim_eqb_eq in Heq as ->.
    apply list_elem_of_In, Hin.
  - intros (p & -> & Hin). exists p. split; [apply list_elem_of_In, Hin|].
    apply prim_eqb_eq. reflexivity.
Qed.

(** X9.  [maybeNull] raises its TypeError exactly on a falsy argument.  On
    any truthy argument it returns a function that returns [true] on [null];
    when the argument is a truthy primitive (neither a schema nor a
    function), that function raises the host's "not a function" TypeError on
    every value other than [null]. *)
Theorem X9_maybeNull_argument :
  forall anotherType,
    (truthy_schema anotherType = false <->
     types.maybeNull anotherType
     = Err (TypeError "You must pass an object or type function to maybeNull()"))
    /\ (truthy_schema anotherType = true ->
        exists f,
          types.maybeNull anotherType = Ok (SFun f)
          /\ (forall path, apply (SFun f) (VPrim Null) path = Ok (VPrim (Bool true)))
          /\ (forall p0 v path,
                anotherType = SPrim p0 -> v <> VPrim Null ->
                apply (SFun f) v path = Err (HostTypeError NotAFunction))).
Proof.
  intros anotherType. unfold types.maybeNull. destruct (truthy_schema anotherType) eqn:T.
  - cbn [negb]. split.
    + split; [discriminate|].
      destruct (type_tag_eqb (typeof_schema anotherType) TObject); discriminate.
    + intros _. destruct (type_tag_eqb (typeof_schema anotherType) TObject) eqn:E.
      * eexists. split; [reflexivity|]. split; [reflexivity|].
        intros p0 v path ->. destruct p0; try discriminate.
      * eexists. split; [reflexivity|]. split; [reflexivity|].
        intros p0 v path -> Hv. simpl. rewrite (is_null_false v Hv). reflexivity.
  - cbn [negb]. split; [split; reflexivity|discriminate].
Qed.

Lemma X9_witness :
  exists f,
    types.maybeNull (SPrim (Num 5)) = Ok (SFun f)
    /\ (forall path, apply (SFun f) (VPrim Null) path = Ok (VPrim (Bool true)))
    /\ (forall p0 v path,
          SPrim (Num 5) = SPrim p0 -> v <> VPrim Null ->
          apply (SFun f) v path = Err (HostTypeError NotAFunction)).
Proof. exact (proj2 (X9_maybeNull_argument (SPrim (Num 5))) eq_refl). Defined.

Lemma get_prop_total v key :
  v <> VPrim Undefined -> v <> VPrim Null -> exists x, get_prop v key = Ok x.
Proof.
  intros Hu Hn. destruct v as [[]| |]; try congruence; simpl; eauto.
  - destruct (String.eqb key "length"); eauto.
    destruct (parse_index key); eauto. destruct (String.get _ _); eauto.
  - destruct (String.eqb key "length"); eauto. destruct (parse_index key); eauto.
Qed.

Lemma deepTypeCheck_pathless v entry rest :
  v <> VPrim Undefined -> v <> VPrim Null ->
  deepTypeCheck v (SObj (entry :: rest)) None = Err (HostTypeError NotIterable).
Proof.
  intros Hu Hn. rewrite deepTypeCheck_obj by apply is_undefined_false, Hu.
  destruct entry as [key sub]. unfold forEach. cbn [forEach_from].
  destruct (get_prop_total v key Hu Hn) as [x ->]. cbn [bind spread].
  destruct (isObject_schema sub && negb (isObject x)); reflexivity.
Qed.

(** X10.  [union] and the function branch of [maybeNull] call their
    arguments with the value only.  A nested object schema wrapped by
    [maybeNull] and placed first in a [union], or wrapped once more by
    [maybeNull], therefore validates without a path: on every value other
    than [null] and [undefined], matching or not, it ends in the host's
    TypeError for spreading a missing path, as soon as the schema has a
    key. *)
Theorem X10_nested_schema_without_path :
  forall entry rest more v path,
    v <> VPrim Undefined -> v <> VPrim Null ->
    apply (types.union (SFun (maybeNull_schema_fn (SObj (entry :: rest))) :: more)) v path
    = Err (HostTypeError NotIterable)
    /\ apply (SFun (maybeNull_type_fn (SFun (maybeNull_schema_fn (SObj (entry :: rest))))))
         v path
       = Err (HostTypeError NotIterable).
Proof.
  intros entry rest more v path Hu Hn.
  pose proof (deepTypeCheck_pathless v entry rest Hu Hn) as H.
  assert (Hcall : apply (SFun (maybeNull_schema_fn (SObj (entry :: rest)))) v None
                  = Err (HostTypeError NotIterable)).
  { rewrite (maybeNull_schema_call _ v None Hn), H. reflexivity. }
  split.
  - rewrite union_call. cbn [some]. rewrite Hcall. reflexivity.
  - change (apply (SFun (maybeNull_type_fn
                           (SFun (maybeNull_schema_fn (SObj (entry :: rest)))))) v path)
      with (if is_null v then Ok (VPrim (Bool true))
            else apply (SFun (maybeNull_schema_fn (SObj (entry :: rest)))) v None).
    rewrite (is_null_false v Hn). exact Hcall.
Qed.

Lemma X10_witness :
  apply (types.union [SFun (maybeNull_schema_fn created_schema); types.string])
    (VObj [("at", VPrim (Str "2020-01-01")); ("by", VPrim (Str "jay"))])
    (Some [Key "<book>"; Key "created"])
  = Err (HostTypeError NotIterable).
Proof.
  refine (proj1 (X10_nested_schema_without_path ("at", types.string) [("by", types.string)]
                   [types.string]
                   (VObj [("at", VPrim (Str "2020-01-01")); ("by", VPrim (Str "jay"))])
                   (Some [Key "<book>"; Key "created"]) _ _)); discriminate.
Defined.

(** ** The path matters only through its rendering *)

Lemma same_rendering_snoc p p' el :
  same_rendering p p' -> same_rendering (p ++ [el]) (p' ++ [el]).
Proof.
  intros (sp & H & H'). exists (stringifyPath_step sp el).
  split; apply stringifyPath_snoc; assumption.
Qed.

Lemma typeCheck_same validator v p p' :
  apply validator v (Some p) = apply validator v (Some p') ->
  same_rendering p p' ->
  typeCheck v validator (Some p) = typeCheck v validator (Some p').
Proof.
  intros Ha (sp & H & H'). unfold typeCheck, typeCheck_with.
  fold (apply validator v (Some p)). fold (apply validator v (Some p')).
  rewrite Ha, H, H'. reflexivity.
Qed.

Lemma deepTypeCheck_fun v f p :
  deepTypeCheck v (SFun f) p =
    if is_undefined v then
      sp <- stringifyPath p ;;
      Err (TypeError ("undefined data property at path: " +:+ sp))
    else typeCheck v (SFun f) p.
Proof. reflexivity. Qed.

Lemma path_blind_same s :
  path_blind s = true ->
  forall v p p',
    same_rendering p p' ->
    deepTypeCheck v s (Some p) = deepTypeCheck v s (Some p')
    /\ typeCheck v s (Some p) = typeCheck v s (Some p').
Proof.
  induction s as [p0|elems IH|entries IH|inner IH|f Hf] using schema_nullable_ind;
    intros B v p p' S.
  - split; [|reflexivity]. destruct S as (sp & H & H').
    destruct (truthy_schema (SPrim p0)) eqn:T.
    + destruct (is_undefined v) eqn:Eu.
      * apply is_undefined_true in Eu as ->.
        rewrite !deepTypeCheck_undefined by exact T. rewrite H, H'. reflexivity.
      * simpl in T. transitivity (@Err unit (HostTypeError NotAFunction)).
        -- simpl. rewrite T, Eu. reflexivity.
        -- simpl. rewrite T, Eu. reflexivity.
    + rewrite !deepTypeCheck_falsy by exact T. rewrite H, H'. reflexivity.
  - split; [|reflexivity]. pose proof S as (sp & H & H').
    destruct (is_undefined v) eqn:Eu.
    { apply is_undefined_true in Eu as ->. rewrite !deepTypeCheck_undefined by reflexivity.
      rewrite H, H'. reflexivity. }
    destruct v as [pv|items|props];
      try (rewrite !deepTypeCheck_not_array by first [exact Eu|reflexivity];
           rewrite H, H'; reflexivity).
    destruct elems as [|s0 rest]; [reflexivity|].
    apply Forall_cons in IH as [IH0 _]. simpl in B. apply andb_true_iff in B as [B0 _].
    simpl.
    destruct (truthy_schema s0 && type_tag_eqb (typeof_schema s0) TObject).
    + apply forEach_from_ext. intros x j _. cbn [spread bind].
      apply (IH0 B0), same_rendering_snoc, S.
    + destruct (truthy_schema s0 && type_tag_eqb (typeof_schema s0) TFunction);
        [|reflexivity].
      apply forEach_from_ext. intros x j _. cbn [spread bind].
      apply (IH0 B0), same_rendering_snoc, S.
  - split; [|reflexivity]. rewrite !deepTypeCheck_obj_any.
    destruct (is_undefined v).
    { destruct S as (sp & H & H'). rewrite H, H'. reflexivity. }
    apply forEach_from_ext. intros [key sub] j Hin.
    destruct (get_prop v key) as [x|e]; [|reflexivity]. cbn [bind spread].
    pose proof (same_rendering_snoc _ _ (Key key) S) as S'.
    destruct (isObject_schema sub && negb (isObject x)).
    + destruct S' as (sp & H & H'). rewrite H, H'. reflexivity.
    + apply (proj1 (Forall_forall _ _) IH (key, sub) Hin); [|exact S'].
      simpl in B. apply (proj1 (forallb_forall _ _) B (key, sub)).
      apply list_elem_of_In, Hin.
  - assert (T : typeCheck v (SFun (maybeNull_schema_fn inner)) (Some p)
                = typeCheck v (SFun (maybeNull_schema_fn inner)) (Some p')).
    { apply typeCheck_same; [|exact S].
      destruct (null_or_not v) as [->|Hv]; [reflexivity|].
      rewrite !maybeNull_schema_call by exact Hv.
      rewrite (proj1 (IH B v p p' S)). reflexivity. }
    split; [|exact T]. rewrite !deepTypeCheck_fun, T.
    destruct S as (sp & H & H'). rewrite H, H'. reflexivity.
  - assert (T : typeCheck v (SFun f) (Some p) = typeCheck v (SFun f) (Some p')).
    { apply typeCheck_same; [|exact S].
      destruct f; try reflexivity; try discriminate.
      exfalso. eapply Hf. reflexivity. }
    split; [|exact T]. rewrite !deepTypeCheck_fun, T.
    destruct S as (sp & H & H'). rewrite H, H'. reflexivity.
Qed.

Lemma foldl_step_keys acc k ks :
  foldl stringifyPath_step acc (map Key (k :: ks)) = acc +:+ "." +:+ String.concat "." (k :: ks).
Proof.
  revert acc k. induction ks as [|k2 ks IH]; intros acc k; [reflexivity|].
  change (foldl stringifyPath_step acc (map Key (k :: k2 :: ks)))
    with (foldl stringifyPath_step (acc +:+ "." +:+ k) (map Key (k2 :: ks))).
  rewrite IH.
  change (String.concat "." (k :: k2 :: ks))
    with (k +:+ "." +:+ String.concat "." (k2 :: ks)).
  rewrite !append_assoc. reflexivity.
Qed.

Lemma joined_same_rendering root keys :
  keys <> [] ->
  same_rendering [Key root; Key (String.concat "." keys)] (Key root :: map Key keys).
Proof.
  destruct keys as [|k ks]; [congruence|]. intros _.
  exists (root +:+ "." +:+ String.concat "." (k :: ks)). split; [reflexivity|].
  change (stringifyPath (Some (Key root :: map Key (k :: ks))))
    with (Ok (foldl stringifyPath_step root (map Key (k :: ks)))).
  rewrite foldl_step_keys. reflexivity.
Qed.

(** X11.  On a schema without user-written validators, the outcome of
    [deepTypeCheck] depends on the path only through its rendering.  The
    watcher that re-validates a watched property passes the dot-joined
    expression as one segment; this path renders like the path of the single
    keys, so the watcher's outcome on a value is the outcome of the pre-flight
    check on that value at the same place, error message included. *)
Theorem X11_watcher_reports_like_preflight :
  (forall s v p p',
      path_blind s = true -> same_rendering p p' ->
      deepTypeCheck v s (Some p) = deepTypeCheck v s (Some p'))
  /\ (forall get schema name keys value,
        keys <> [] ->
        path_blind (get schema (String.concat "." keys)) = true ->
        typeCheckWatcher get schema name (String.concat "." keys) value
        = deepTypeCheck value (get schema (String.concat "." keys))
            (Some (Key ("<" +:+ name +:+ ">") :: map Key keys))).
Proof.
  split.
  - intros s v p p' B S. exact (proj1 (path_blind_same s B v p p' S)).
  - intros get schema name keys value Hk B. unfold typeCheckWatcher.
    apply (path_blind_same _ B). apply joined_same_rendering, Hk.
Qed.

Lemma X11_witness :
  typeCheckWatcher (fun _ _ => types.string) watch_example "m" (String.concat "." ["a"; "b"])
    (VPrim (Num 1))
  = deepTypeCheck (VPrim (Num 1)) types.string (Some [Key "<m>"; Key "a"; Key "b"]).
Proof.
  refine (proj2 X11_watcher_reports_like_preflight (fun _ _ => types.string) watch_example
            "m" ["a"; "b"] (VPrim (Num 1)) _ eq_refl). discriminate.
Defined.

(** ** [getWatchProperties]: its error, and when the paths are distinct *)

Lemma reduce_null (f : list string -> string * schema -> result (list string))
    (entries : list (string * schema)) :
  Forall (fun e => forall acc,
            (no_null_node (snd e) = true -> exists acc', f acc e = Ok acc')
            /\ (no_null_node (snd e) = false ->
                f acc e = Err (HostTypeError NullishToObject))) entries ->
  forallb (fun '(_, v) => no_null_node v) entries = false ->
  forall acc, reduce f entries acc = Err (HostTypeError NullishToObject).
Proof.
  induction entries as [|[k v] entries IH]; intros HF N acc; [discriminate|].
  apply Forall_cons in HF as [He HF]. simpl in N. cbn [reduce].
  destruct (no_null_node v) eqn:Nv.
  - destruct (proj1 (He acc) Nv) as [acc' ->]. cbn [bind]. apply IH; assumption.
  - rewrite (proj2 (He acc) Nv). reflexivity.
Qed.

Lemma reducer_null val :
  forall path acc key,
    no_null_node val = false ->
    reducer path acc key val = Err (HostTypeError NullishToObject).
Proof.
  induction val as [p0|elems _|entries IH|f] using schema_tree_ind;
    intros path acc key N; try discriminate.
  - destruct p0; try discriminate. reflexivity.
  - simpl in N. simpl. apply reduce_null; [|exact N].
    apply Forall_forall. intros [k v] Hin acc'. split.
    + intros Nv. eexists. apply reducer_watch_paths, Nv.
    + intros Nv. apply (proj1 (Forall_forall _ _) IH (k, v) Hin). exact Nv.
Qed.

Lemma getWatchProperties_watch_paths entries :
  no_null_node (SObj entries) = true ->
  getWatchProperties (SObj entries)
  = Ok (flat_map (fun '(key, val) => watch_paths [] key val) entries).
Proof.
  intros N. unfold getWatchProperties. simpl.
  rewrite (reduce_app _ (fun e => watch_paths [] (fst e) (snd e)) entries (fun l => l)).
  - simpl. f_equal. apply flat_map_ext. intros [key val]. reflexivity.
  - intros [k v] acc' Hin. unfold getReducerForPath. simpl.
    apply reducer_watch_paths.
    simpl in N. apply (proj1 (forallb_forall _ _) N (k, v)). apply list_elem_of_In, Hin.
Qed.

Lemma getWatchProperties_null entries :
  no_null_node (SObj entries) = false ->
  getWatchProperties (SObj entries) = Err (HostTypeError NullishToObject).
Proof.
  intros N. unfold getWatchProperties. cbn [Object_entries bind].
  apply reduce_null; [|exact N].
  apply Forall_forall. intros [k v] Hin acc. unfold getReducerForPath. split.
  - intros Nv. eexists. apply reducer_watch_paths, Nv.
  - intros Nv. apply reducer_null, Nv.
Qed.

(** X12.  [getWatchProperties] on a schema mapping raises exactly when a
    [null] sits among the values reached through nested objects, and then
    with the host's TypeError of [Object.entries(null)].  [model] derives the
    watched paths before anything else is done with the schema, so outside
    production it ends in that error, before the guard is installed and
    before the validator could report the node. *)
Theorem X12_null_schema_node :
  (forall entries,
      getWatchProperties (SObj entries) = Err (HostTypeError NullishToObject)
      <-> no_null_node (SObj entries) = false)
  /\ (forall so mo h l entries marker,
        truthy (storeOptions.data so) = true ->
        get_prop (storeOptions.data so) "_isVue" = Ok marker -> truthy marker = false ->
        storeOptions.methods so = Some l ->
        storeOptions.schema so = Some (SObj entries) ->
        no_null_node (SObj entries) = false ->
        model false so mo h = (Err (HostTypeError NullishToObject), h)).
Proof.
  split.
  - intros entries. split; [|apply getWatchProperties_null].
    intros H. destruct (no_null_node (SObj entries)) eqn:N; [|reflexivity].
    rewrite (getWatchProperties_watch_paths entries N) in H. discriminate.
  - intros so mo h l entries marker Hd Hm Hmf Hl Hs N. unfold model, has_schema.
    rewrite Hd, Hm, Hmf, Hl, Hs. cbn [negb truthy_schema].
    rewrite (getWatchProperties_null entries N). reflexivity.
Qed.

Lemma X12_witness :
  model false null_store (modelOptions.Make None) programmer_heap
  = (Err (HostTypeError NullishToObject), programmer_heap).
Proof.
  apply (proj2 X12_null_schema_node null_store (modelOptions.Make None) programmer_heap
           1%nat [("id", types.number); ("address", SObj [("city", SPrim Null)])]
           (VPrim Undefined)); reflexivity.
Defined.

Lemma dot_free_app a b : dot_free (a +:+ b) = dot_free a && dot_free b.
Proof.
  induction a as [|c a IH]; [reflexivity|].
  rewrite append_cons. cbn [dot_free]. rewrite IH, andb_assoc. reflexivity.
Qed.

Lemma dot_free_joined y r : dot_free (y +:+ "." +:+ r) = false.
Proof. rewrite dot_free_app. apply andb_false_r. Qed.

Lemma append_nil_l (s : string) : "" +:+ s = s.
Proof. reflexivity. Qed.

Lemma split_at_dot x : forall y r r',
  dot_free x = true -> dot_free y = true ->
  x +:+ "." +:+ r = y +:+ "." +:+ r' -> x = y /\ r = r'.
Proof.
  induction x as [|c x IH]; intros [|d y] r r' Hx Hy H;
    rewrite ?append_cons, ?append_nil_l in H.
  - injection H as ->. split; reflexivity.
  - injection H as <- _. discriminate.
  - injection H as -> _. discriminate.
  - injection H as -> H.
    cbn [dot_free] in Hx, Hy.
    apply andb_true_iff in Hx as [_ Hx]. apply andb_true_iff in Hy as [_ Hy].
    destruct (IH y r r' Hx Hy H) as [-> ->]. split; reflexivity.
Qed.

Lemma concat_cons2 sep (x y : string) l :
  String.concat sep (x :: y :: l) = x +:+ sep +:+ String.concat sep (y :: l).
Proof. reflexivity. Qed.

(** Joining with dots loses nothing on keys without dots. *)
Lemma concat_dot_inj l : forall l',
  Forall (fun k => dot_free k = true) l -> Forall (fun k => dot_free k = true) l' ->
  l <> [] -> l' <> [] ->
  String.concat "." l = String.concat "." l' -> l = l'.
Proof.
  induction l as [|x xs IH]; intros [|y ys] Hl Hl' Hn Hn' H; try congruence.
  apply Forall_cons in Hl as [Hx Hxs]. apply Forall_cons in Hl' as [Hy Hys].
  destruct xs as [|x2 xs], ys as [|y2 ys].
  - simpl in H. congruence.
  - rewrite concat_cons2 in H. simpl in H. subst x.
    rewrite dot_free_joined in Hx. discriminate.
  - rewrite concat_cons2 in H. simpl in H. subst y.
    rewrite dot_free_joined in Hy. discriminate.
  - rewrite !concat_cons2 in H.
    destruct (split_at_dot _ _ _ _ Hx Hy H) as [-> H'].
    f_equal. apply IH; try assumption; discriminate.
Qed.

Lemma map_flat_map {A B C} (g : B -> C) (f : A -> list B) (l : list A) :
  map g (flat_map f l) = flat_map (fun x => map g (f x)) l.
Proof.
  induction l as [|x l IH]; [reflexivity|]. simpl. rewrite map_app, IH. reflexivity.
Qed.

Lemma flat_map_ext_in {A B} (f g : A -> list B) (l : list A) :
  (forall x, x ∈ l -> f x = g x) -> flat_map f l = flat_map g l.
Proof.
  induction l as [|x l IH]; intros H; [reflexivity|]. simpl.
  rewrite (H x (list_elem_of_here _ _)), IH; [reflexivity|].
  intros y Hy. apply H, list_elem_of_further, Hy.
Qed.

Lemma watch_paths_leaf_keys val :
  forall path key,
    watch_paths path key val
    = map (fun ks => String.concat "." (path ++ ks)) (leaf_keys key val).
Proof.
  induction val as [p0|elems _|entries IH|f] using schema_tree_ind;
    intros path key; try reflexivity.
  cbn [watch_paths leaf_keys]. rewrite map_map, map_flat_map.
  apply flat_map_ext_in. intros [k v] Hin.
  rewrite (proj1 (Forall_forall _ _) IH (k, v) Hin). cbn [snd].
  apply map_ext. intros ks. rewrite <- app_assoc. reflexivity.
Qed.

Lemma elem_of_flat_map {A B} (f : A -> list B) (l : list A) (y : B) :
  y ∈ flat_map f l <-> exists x, x ∈ l /\ y ∈ f x.
Proof.
  rewrite list_elem_of_In, in_flat_map. split.
  - intros (x & Hx & Hy). exists x. rewrite !list_elem_of_In. auto.
  - intros (x & Hx & Hy). exists x. rewrite <- !list_elem_of_In. auto.
Qed.

Lemma leaf_keys_head key val ks :
  ks ∈ leaf_keys key val -> exists rest, ks = key :: rest.
Proof.
  destruct val; cbn [leaf_keys]; intros H;
    try (apply list_elem_of_singleton in H as ->; eauto).
  apply list_elem_of_fmap in H as (rest & -> & _). eauto.
Qed.

Lemma All_lookup_in {A} (P : A -> Prop) (l : list A) (x : A) :
  All P l -> x ∈ l -> P x.
Proof. intros H Hin. apply All_Forall in H. exact (proj1 (Forall_forall _ _) H x Hin). Qed.

Lemma leaf_keys_dot_free val :
  forall key ks,
    plain_keys val -> dot_free key = true -> ks ∈ leaf_keys key val ->
    Forall (fun k => dot_free k = true) ks.
Proof.
  induction val as [p0|elems _|entries IH|f] using schema_tree_ind;
    intros key ks P Hk Hin; cbn [leaf_keys] in Hin;
    try (apply list_elem_of_singleton in Hin as ->; repeat constructor; exact Hk).
  apply list_elem_of_fmap in Hin as (rest & -> & Hin). constructor; [exact Hk|].
  apply elem_of_flat_map in Hin as ([k v] & Hkv & Hin).
  destruct P as (_ & Hdot & Hsub).
  apply (proj1 (Forall_forall _ _) IH (k, v) Hkv k rest).
  - exact (All_lookup_in (fun '(_, v0) => plain_keys v0) _ (k, v) Hsub Hkv).
  - apply (proj1 (Forall_forall _ _) Hdot k). apply list_elem_of_fmap.
    exists (k, v). split; [reflexivity|exact Hkv].
  - exact Hin.
Qed.

Lemma NoDup_flat_map_keys {B} (f : string -> B -> list (list string))
    (entries : list (string * B)) :
  NoDup (map fst entries) ->
  (forall k v, (k, v) ∈ entries -> NoDup (f k v)) ->
  (forall k v ks, ks ∈ f k v -> exists rest, ks = k :: rest) ->
  NoDup (flat_map (fun '(k, v) => f k v) entries).
Proof.
  intros Hnd Hf Hhead. induction entries as [|[k v] entries IH]; [constructor|].
  cbn [map fst] in Hnd. apply NoDup_cons in Hnd as [Hk Hnd].
  cbn [flat_map]. apply NoDup_app. split; [|split].
  - apply Hf, list_elem_of_here.
  - intros ks Hin Hin'. apply elem_of_flat_map in Hin' as ([k' v'] & Hkv & Hin').
    destruct (Hhead _ _ _ Hin) as [rest ->].
    destruct (Hhead _ _ _ Hin') as [rest' [= -> _]].
    apply Hk. apply list_elem_of_fmap. exists (k', v'). split; [reflexivity|exact Hkv].
  - apply IH; [exact Hnd|].
    intros k' v' Hin. apply Hf, list_elem_of_further, Hin.
Qed.

Lemma leaf_keys_NoDup val :
  forall key, plain_keys val -> NoDup (leaf_keys key val).
Proof.
  induction val as [p0|elems _|entries IH|f] using schema_tree_ind;
    intros key P; cbn [leaf_keys]; try apply NoDup_singleton.
  destruct P as (Hnd & _ & Hsub).
  apply (NoDup_fmap_2 (cons key)).
  apply (NoDup_flat_map_keys leaf_keys entries Hnd).
  - intros k v Hin. apply (proj1 (Forall_forall _ _) IH (k, v) Hin).
    exact (All_lookup_in (fun '(_, v0) => plain_keys v0) _ (k, v) Hsub Hin).
  - intros k v ks. apply leaf_keys_head.
Qed.

(** A key that holds a dot repeats the path of the nested keys. *)
Example dotted_schema_repeats :
  getWatchProperties dotted_schema = Ok ["a.b"; "a.b"].
Proof. reflexivity. Qed.

(** X13.  On a schema mapping without [null] whose keys, at every object
    node, are distinct and hold no dot, [getWatchProperties] returns paths
    that are pairwise distinct: no property is watched twice. *)
Theorem X13_watch_paths_distinct entries :
  no_null_node (SObj entries) = true ->
  plain_keys (SObj entries) ->
  exists paths, getWatchProperties (SObj entries) = Ok paths /\ NoDup paths.
Proof.
  intros N P. eexists. split; [apply getWatchProperties_watch_paths, N|].
  rewrite (flat_map_ext_in _ (fun e => map (String.concat ".") (leaf_keys (fst e) (snd e))));
    [|intros [k v] _; apply watch_paths_leaf_keys].
  rewrite <- map_flat_map.
  pose proof P as (Hnd & Hdot & Hsub).
  assert (Hin : forall ks, ks ∈ flat_map (fun e => leaf_keys (fst e) (snd e)) entries ->
                           Forall (fun k => dot_free k = true) ks /\ ks <> []).
  { intros ks Hks. apply elem_of_flat_map in Hks as ([k v] & Hkv & Hks). split.
    - apply (leaf_keys_dot_free v k ks); [exact (All_lookup_in (fun '(_, v0) => plain_keys v0) _ (k, v) Hsub Hkv)| |exact Hks].
      apply (proj1 (Forall_forall _ _) Hdot k). apply list_elem_of_fmap.
      exists (k, v). split; [reflexivity|exact Hkv].
    - destruct (leaf_keys_head _ _ _ Hks) as [rest ->]. discriminate. }
  apply NoDup_fmap_2_strong.
  - intros ks ks' Hks Hks' Heq.
    destruct (Hin ks Hks) as [H1 H2]. destruct (Hin ks' Hks') as [H1' H2'].
    apply concat_dot_inj; assumption.
  - rewrite (flat_map_ext_in _ (fun '(k, v) => leaf_keys k v));
      [|intros [k v] _; reflexivity].
    apply (NoDup_flat_map_keys leaf_keys entries Hnd).
    + intros k v Hkv. apply leaf_keys_NoDup. exact (All_lookup_in (fun '(_, v0) => plain_keys v0) _ (k, v) Hsub Hkv).
    + intros k v ks. apply leaf_keys_head.
Qed.

Lemma X13_witness :
  exists paths, getWatchProperties watch_example = Ok paths /\ NoDup paths.
Proof.
  apply (X13_watch_paths_distinct
           [("a", SObj [("b", types.string)]);
            ("c", SArr [SObj [("d", types.string)]]);
            ("e", types.string)]); [reflexivity|].
  cbn [plain_keys All map fst].
  repeat split; try (repeat constructor; fail);
    apply (bool_decide_unpack _); reflexivity.
Defined.

(** ** [model] without the guard, and in production *)

Lemma watch_all_watchers w props c :
  watchers (foldl (fun c propExpression => watch c propExpression w) c props)
  = watchers c ++ map (fun propExpression => (propExpression, w)) props.
Proof.
  revert c. induction props as [|x props IH]; intros c; simpl.
  - rewrite app_nil_r. reflexivity.
  - rewrite IH. simpl. rewrite <- app_assoc. reflexivity.
Qed.

Lemma alloc_methods_keeps h l m :
  method_maps h !! l = Some m ->
  method_maps (snd (alloc_methods h)) !! l = Some m.
Proof.
  intros H. unfold alloc_methods. cbn [snd method_maps].
  rewrite lookup_insert_ne; [exact H|].
  intros E. pose proof (is_fresh (dom (method_maps h))) as F.
  apply F. rewrite E. apply elem_of_dom. eauto.
Qed.

Lemma unguarded_branch production mo :
  production = true \/ modelOptions.immutable mo = Some false ->
  negb (bool_decide (modelOptions.immutable mo = Some false)) && negb production = false.
Proof.
  intros [->|H].
  - apply andb_false_r.
  - rewrite bool_decide_eq_true_2 by exact H. reflexivity.
Qed.

(** X14.  In production, or with [immutable: false], [model] writes to none
    of the caller's objects: the accessor objects and every object of methods
    that existed are as before, whether [model] returns or raises.  The
    instance it returns has no [_mutex] and no watcher that runs
    [watchCallback]. *)
Theorem X14_no_guard :
  forall production so mo h,
    production = true \/ modelOptions.immutable mo = Some false ->
    accessors (snd (model production so mo h)) = accessors h
    /\ (forall l m, method_maps h !! l = Some m ->
                    method_maps (snd (model production so mo h)) !! l = Some m)
    /\ (forall c, fst (model production so mo h) = Ok c ->
                  _mutex (state c) = Absent
                  /\ Forall (fun w => snd w = TypeCheckWatcher) (watchers c)).
Proof.
  intros production so mo h U. unfold model.
  rewrite (unguarded_branch production mo U).
  destruct (truthy (storeOptions.data so)); cbn [negb]; [|repeat split; auto; discriminate].
  destruct (get_prop (storeOptions.data so) "_isVue") as [marker|e];
    [|repeat split; auto; discriminate].
  destruct (truthy marker); [repeat split; auto; discriminate|].
  assert (K : forall (r : result component) h',
             accessors h' = accessors h ->
             (forall l m, method_maps h !! l = Some m -> method_maps h' !! l = Some m) ->
             (forall c, r = Ok c ->
                        _mutex (state c) = Absent
                        /\ Forall (fun w => snd w = TypeCheckWatcher) (watchers c)) ->
             accessors (snd (r, h')) = accessors h
             /\ (forall l m, method_maps h !! l = Some m ->
                             method_maps (snd (r, h')) !! l = Some m)
             /\ (forall c, fst (r, h') = Ok c ->
                           _mutex (state c) = Absent
                           /\ Forall (fun w => snd w = TypeCheckWatcher) (watchers c))).
  { intros r h' Ha Hm Hc. repeat split; try assumption; apply Hc; assumption. }
  assert (W : forall vm props,
             _mutex (state (foldl (fun c p => watch c p TypeCheckWatcher) (new_Vue vm) props))
             = Absent
             /\ Forall (fun w => snd w = TypeCheckWatcher)
                  (watchers (foldl (fun c p => watch c p TypeCheckWatcher) (new_Vue vm) props))).
  { intros vm props. rewrite watch_all_state, watch_all_watchers. split; [reflexivity|].
    simpl. apply Forall_forall. intros w Hw.
    apply list_elem_of_fmap in Hw as (p & -> & _). reflexivity. }
  destruct (storeOptions.methods so) as [lm|].
  - destruct (has_schema so) as [s|].
    + destruct production.
      * apply K; auto. intros c [= <-]. split; [reflexivity|constructor].
      * destruct (getWatchProperties s) as [watchProps|e]; [|apply K; auto; discriminate].
        destruct (deepTypeCheck _ s _); [|apply K; auto; discriminate].
        apply K; auto. intros c [= <-]. apply W.
    + apply K; auto. intros c [= <-]. split; [reflexivity|constructor].
  - pose proof (alloc_methods_keeps h) as A.
    destruct (alloc_methods h) as [lm h'] eqn:Ea. cbn [snd] in A.
    assert (Eacc : accessors h' = accessors h).
    { unfold alloc_methods in Ea. injection Ea as _ <-. reflexivity. }
    destruct (has_schema so) as [s|].
    + destruct production.
      * apply K; auto. intros c [= <-]. split; [reflexivity|constructor].
      * destruct (getWatchProperties s) as [watchProps|e]; [|apply K; auto; discriminate].
        destruct (deepTypeCheck _ s _); [|apply K; auto; discriminate].
        apply K; auto. intros c [= <-]. apply W.
    + apply K; auto. intros c [= <-]. split; [reflexivity|constructor].
Qed.

Lemma X14_witness :
  accessors (snd (model false programmer (modelOptions.Make (Some false)) programmer_heap))
  = accessors programmer_heap.
Proof.
  exact (proj1 (X14_no_guard false programmer (modelOptions.Make (Some false)) programmer_heap
                  (or_intror eq_refl))).
Defined.

(** X15.  In production [model] reads neither the schema nor the
    [immutable] option: two calls whose store options differ only in the
    schema, under any two model options, give the same result and the same
    heap.  So no data is rejected for its type. *)
Theorem X15_production_ignores_schema :
  forall so mo mo' s' h,
    model true (with_schema s' so) mo' h = model true so mo h.
Proof.
  intros so mo mo' s' h. unfold model, with_schema, has_schema.
  cbn [storeOptions.name storeOptions.data storeOptions.computed storeOptions.watch
       storeOptions.methods storeOptions.schema].
  rewrite !andb_false_r.
  destruct (truthy (storeOptions.data so)); cbn [negb]; [|reflexivity].
  destruct (get_prop (storeOptions.data so) "_isVue") as [marker|e]; [|reflexivity].
  destruct (truthy marker); [reflexivity|].
  destruct (storeOptions.methods so) as [lm|].
  - destruct s' as [s'|]; [destruct (truthy_schema s')|];
      (destruct (storeOptions.schema so) as [s|]; [destruct (truthy_schema s)|]);
      reflexivity.
  - destruct (alloc_methods h) as [lm h'].
    destruct s' as [s'|]; [destruct (truthy_schema s')|];
      (destruct (storeOptions.schema so) as [s|]; [destruct (truthy_schema s)|]);
      reflexivity.
Qed.

(** ** The pre-flight check decides the outcome of [model] *)

Lemma model_validated so mo h s watchProps :
  plain_data so ->
  has_schema so = Some s ->
  getWatchProperties s = Ok watchProps ->
  fst (model false so mo h)
  = (deepTypeCheck (storeOptions.data so) s (Some [Key ("<" +:+ vm_name so +:+ ">")]) ;;;
     Ok (foldl (fun c propExpression => watch c propExpression TypeCheckWatcher)
           (fst (if negb (bool_decide (modelOptions.immutable mo = Some false))
                 then
                   (foldl (fun c propExpression => watch c propExpression MutexWatcher)
                      {| options :=
                           {| vm.name := vm_name so;
                              vm.data := storeOptions.data so;
                              vm.computed := default ∅ (storeOptions.computed so);
                              vm.watch := default ∅ (storeOptions.watch so);
                              vm.methods :=
                                match storeOptions.methods so with
                                | Some l => l
                                | None => fst (alloc_methods h)
                                end |};
                         state := {| _mutex := Count 0;
                                     fields := match storeOptions.data so with
                                               | VObj props => props
                                               | _ => []
                                               end |};
                         watchers := [] |} watchProps, h)
                 else
                   (new_Vue {| vm.name := vm_name so;
                               vm.data := storeOptions.data so;
                               vm.computed := default ∅ (storeOptions.computed so);
                               vm.watch := default ∅ (storeOptions.watch so);
                               vm.methods :=
                                 match storeOptions.methods so with
                                 | Some l => l
                                 | None => fst (alloc_methods h)
                                 end |}, h)))
           watchProps)).
Proof.
  intros (Hd & marker & Hm & Hmf) Hs Hw. unfold model, vm_name.
  rewrite Hd, Hm, Hmf, Hs, Hw. cbn [negb]. rewrite andb_true_r.
  destruct (storeOptions.methods so) as [lm|]; cbn [alloc_methods fst];
    destruct (bool_decide (modelOptions.immutable mo = Some false)); cbn [negb fst vm.data];
    destruct (deepTypeCheck _ s _) as [[]|e]; reflexivity.
Qed.

Lemma watch_all_options w props c :
  options (foldl (fun c propExpression => watch c propExpression w) c props) = options c.
Proof.
  revert c. induction props as [|x props IH]; intros c; simpl; [reflexivity|].
  rewrite IH. reflexivity.
Qed.

Lemma programmer_plain_data : plain_data programmer.
Proof. split; [reflexivity|]. exists (VPrim Undefined). split; reflexivity. Qed.

(** X16.  Outside production, on store options that pass the checks of
    [storeOptions.data] and whose schema yields its watched paths, [model]
    raises exactly what the pre-flight [deepTypeCheck] of the data against
    the schema raises, under the path [<name>]; when the pre-flight check
    passes, [model] returns the instance, with the given data, on which a
    [watchCallback] watcher (when the guard is on) and then a type checking
    watcher are registered for each watched path, in the order of
    [getWatchProperties]. *)
Theorem X16_preflight_decides :
  forall so mo h s watchProps,
    plain_data so ->
    has_schema so = Some s ->
    getWatchProperties s = Ok watchProps ->
    (forall e,
        deepTypeCheck (storeOptions.data so) s (Some [Key ("<" +:+ vm_name so +:+ ">")])
        = Err e <->
        fst (model false so mo h) = Err e)
    /\ (deepTypeCheck (storeOptions.data so) s (Some [Key ("<" +:+ vm_name so +:+ ">")])
        = Ok tt ->
        exists c,
          fst (model false so mo h) = Ok c
          /\ vm.data (options c) = storeOptions.data so
          /\ vm.name (options c) = vm_name so
          /\ watchers c
             = (if bool_decide (modelOptions.immutable mo = Some false) then []
                else map (fun propExpression => (propExpression, MutexWatcher)) watchProps)
               ++ map (fun propExpression => (propExpression, TypeCheckWatcher)) watchProps).
Proof.
  intros so mo h s watchProps P Hs Hw.
  rewrite (model_validated so mo h s watchProps P Hs Hw).
  destruct (deepTypeCheck _ s _) as [[]|e0]; cbn [bind].
  - split; [intros e; split; discriminate|]. intros _. eexists. split; [reflexivity|].
    rewrite watch_all_options, watch_all_watchers.
    destruct (bool_decide (modelOptions.immutable mo = Some false)); cbn [negb fst].
    + repeat split.
    + rewrite watch_all_options, watch_all_watchers. repeat split.
  - split; [|discriminate]. intros e. split; intros [= ->]; reflexivity.
Qed.

Lemma X16_witness :
  exists c,
    fst (model false programmer (modelOptions.Make None) programmer_heap) = Ok c
    /\ vm.data (options c) = storeOptions.data programmer
    /\ vm.name (options c) = vm_name programmer
    /\ watchers c
       = [("firstName", MutexWatcher); ("lastName", MutexWatcher);
          ("firstName", TypeCheckWatcher); ("lastName", TypeCheckWatcher)].
Proof.
  apply (proj2 (X16_preflight_decides programmer (modelOptions.Make None) programmer_heap
                  (SObj [("firstName", types.string); ("lastName", types.string)])
                  ["firstName"; "lastName"]
                  programmer_plain_data
                  eq_refl eq_refl)).
  reflexivity.
Defined.

Lemma constructible_plain so : constructible so -> plain_data so.
Proof. intros (Hd & Hm & _). split; assumption. Qed.

(** X17.  With the guard on, a [model] call that raises at the pre-flight
    check has already written to the caller's object of methods: the error is
    the one of [deepTypeCheck], and every method is left wrapped. *)
Theorem X17_failed_model_keeps_wrappers :
  forall so mo h lm methods s e,
    modelOptions.immutable mo <> Some false ->
    constructible so ->
    storeOptions.methods so = Some lm ->
    method_maps h !! lm = Some methods ->
    has_schema so = Some s ->
    deepTypeCheck (storeOptions.data so) s (Some [Key ("<" +:+ vm_name so +:+ ">")]) = Err e ->
    fst (model false so mo h) = Err e
    /\ method_maps (snd (model false so mo h)) !! lm = Some (wrapper <$> methods).
Proof.
  intros so mo h lm methods s e Hi Hc Hl Hm Hs He. split.
  - destruct Hc as (Hd & Hmk & Hw). destruct (Hw s Hs) as [watchProps Hwp].
    rewrite (model_validated so mo h s watchProps (conj Hd Hmk) Hs Hwp), He. reflexivity.
  - exact (model_heap_methods so mo h lm methods Hi Hc Hl Hm).
Qed.

Lemma programmer_invalid_constructible : constructible programmer_invalid.
Proof.
  split; [reflexivity|]. split.
  - exists (VPrim Undefined). split; reflexivity.
  - intros s [= <-]. eexists. reflexivity.
Qed.

Lemma X17_witness :
  fst (model false programmer_invalid (modelOptions.Make None) programmer_heap)
  = Err (TypeError "check failed for data property at path <programmer>.lastName. Got: 7")
  /\ method_maps (snd (model false programmer_invalid (modelOptions.Make None) programmer_heap))
       !! 1%nat
     = Some (wrapper <$> {[ "setFirstName" := setFirstName ]}).
Proof.
  apply (X17_failed_model_keeps_wrappers programmer_invalid (modelOptions.Make None)
           programmer_heap 1%nat {[ "setFirstName" := setFirstName ]}
           (SObj [("firstName", types.string); ("lastName", types.string)])
           (TypeError "check failed for data property at path <programmer>.lastName. Got: 7")
           ltac:(discriminate) programmer_invalid_constructible eq_refl eq_refl eq_refl
           eq_refl).
Defined.

(** ** [storeOptions.methods] left out *)

Lemma wrap_methods_empty : wrap_methods ∅ = ∅.
Proof. unfold wrap_methods. apply map_fold_empty. Qed.

Lemma fresh_methods_lookup (h : heap) :
  method_maps h !! fresh (dom (method_maps h)) = None.
Proof. apply not_elem_of_dom, is_fresh. Qed.

(** X18.  When [storeOptions.methods] is left out, the instance that [model]
    returns has an object of methods of its own: a new, empty object, which
    the wrapping loop leaves empty, and every object of methods that existed
    is as before. *)
Theorem X18_fresh_methods :
  forall production so mo h c,
    storeOptions.methods so = None ->
    fst (model production so mo h) = Ok c ->
    method_maps h !! vm.methods (options c) = None
    /\ method_maps (snd (model production so mo h)) !! vm.methods (options c) = Some ∅
    /\ (forall l m, method_maps h !! l = Some m ->
                    method_maps (snd (model production so mo h)) !! l = Some m).
Proof.
  intros production so mo h c Hn. unfold model. rewrite Hn.
  destruct (truthy (storeOptions.data so)); cbn [negb fst]; [|discriminate].
  destruct (get_prop (storeOptions.data so) "_isVue") as [marker|e]; [|discriminate].
  destruct (truthy marker); [discriminate|].
  cbn [alloc_methods].
  assert (F : forall l m, method_maps h !! l = Some m -> l <> fresh (dom (method_maps h))).
  { intros l m H ->. rewrite fresh_methods_lookup in H. discriminate. }
  destruct (negb (bool_decide (modelOptions.immutable mo = Some false)) && negb production);
    (destruct (has_schema so) as [s|];
     [destruct production;
      [|destruct (getWatchProperties s) as [watchProps|e]; [|discriminate];
        destruct (deepTypeCheck _ s _); [|discriminate]]|]);
    cbn [fst snd]; intros [= <-]; rewrite ?watch_all_options;
    cbn [options new_Vue vm.methods install_guard method_maps];
    (split; [apply fresh_methods_lookup|]); split;
    rewrite ?lookup_alter_eq, ?lookup_insert_eq; try reflexivity;
    try (cbn [fmap option_fmap option_map]; rewrite wrap_methods_empty; reflexivity);
    intros l m H; pose proof (F l m H) as Hne;
    rewrite ?lookup_alter_ne by (intros E; apply Hne; symmetry; exact E);
    rewrite lookup_insert_ne by (intros E; apply Hne; symmetry; exact E); exact H.
Qed.

Lemma X18_witness :
  exists c,
    fst (model false bare_store (modelOptions.Make None) programmer_heap) = Ok c
    /\ method_maps programmer_heap !! vm.methods (options c) = None
    /\ method_maps (snd (model false bare_store (modelOptions.Make None) programmer_heap))
         !! vm.methods (options c) = Some ∅.
Proof.
  eexists. split; [reflexivity|].
  pose proof (X18_fresh_methods false bare_store (modelOptions.Make None) programmer_heap _
                eq_refl eq_refl) as (H1 & H2 & _).
  split; [exact H1|exact H2].
Defined.

(** ** Wrapping more than once *)

Lemma set_mutex_same this n : _mutex this = Count n -> set_mutex (Count n) this = this.
Proof. destruct this as [m fs]. simpl. intros ->. reflexivity. Qed.

Lemma iter_wrapper k :
  forall f args this n,
    _mutex this = Count n ->
    Nat.iter k wrapper f args this = f args (set_mutex (Count (n + Z.of_nat k)) this).
Proof.
  induction k as [|k IH]; intros f args this n H.
  - simpl. rewrite Z.add_0_r, (set_mutex_same this n H). reflexivity.
  - change (Nat.iter (S k) wrapper f) with (wrapper (Nat.iter k wrapper f)).
    unfold wrapper at 1.
    rewrite (IH f args (mutex_add 1 this) (n + 1)).
    + unfold mutex_add, set_mutex. cbn [fields]. do 3 f_equal. lia.
    + unfold mutex_add. rewrite H. reflexivity.
Qed.

Lemma model_again_methods k so mo h lm methods :
  modelOptions.immutable mo <> Some false ->
  constructible so ->
  storeOptions.methods so = Some lm ->
  method_maps h !! lm = Some methods ->
  method_maps (model_again k so mo h) !! lm = Some (Nat.iter k wrapper <$> methods).
Proof.
  intros Hi Hc Hl Hm. induction k as [|k IH].
  - simpl. rewrite Hm. f_equal. symmetry. apply map_fmap_id.
  - unfold model_again in *.
    change (Nat.iter (S k) (fun h => snd (model false so mo h)) h)
      with (snd (model false so mo (Nat.iter k (fun h => snd (model false so mo h)) h))).
    rewrite (model_heap_methods so mo _ lm _ Hi Hc Hl IH).
    f_equal. rewrite <- map_fmap_compose. reflexivity.
Qed.

(** X19.  After [k] calls of [model], with the guard on, on the same store
    options, a method found in the caller's object of methods is the original
    under [k] wrappers: one call of it runs the original with the counter
    raised by [k]. *)
Theorem X19_wrapped_once_per_model_call :
  forall k so mo h lm methods key (f : jsfun) args this n,
    modelOptions.immutable mo <> Some false ->
    constructible so ->
    storeOptions.methods so = Some lm ->
    method_maps h !! lm = Some methods ->
    methods !! key = Some f ->
    _mutex this = Count n ->
    exists g,
      method_maps (model_again k so mo h) !! lm ≫= (fun m => m !! key) = Some g
      /\ g args this = f args (set_mutex (Count (n + Z.of_nat k)) this).
Proof.
  intros k so mo h lm methods key f args this n Hi Hc Hl Hm Hk H.
  exists (Nat.iter k wrapper f). split.
  - rewrite (model_again_methods k so mo h lm methods Hi Hc Hl Hm). simpl.
    rewrite lookup_fmap, Hk. reflexivity.
  - apply iter_wrapper, H.
Qed.

Lemma X19_witness :
  exists g,
    method_maps (model_again 2 programmer (modelOptions.Make None) programmer_heap) !! 1%nat
      ≫= (fun m => m !! "setFirstName") = Some g
    /\ g [VPrim (Str "Joe")] (Instance (Count 0) [("firstName", VPrim (Str "Brian"))])
       = setFirstName [VPrim (Str "Joe")]
           (set_mutex (Count (0 + Z.of_nat 2))
              (Instance (Count 0) [("firstName", VPrim (Str "Brian"))])).
Proof.
  apply (X19_wrapped_once_per_model_call 2 programmer (modelOptions.Make None) programmer_heap
           1%nat {[ "setFirstName" := setFirstName ]} "setFirstName" setFirstName
           [VPrim (Str "Joe")] (Instance (Count 0) [("firstName", VPrim (Str "Brian"))]) 0
           ltac:(discriminate) programmer_constructible eq_refl eq_refl eq_refl eq_refl).
Defined.

(** ** A counter that is not a number *)

Lemma mutex_add_not_count d this :
  is_count (_mutex this) = false -> _mutex (mutex_add d this) = NaN.
Proof. unfold mutex_add. destruct (_mutex this); [reflexivity|reflexivity|discriminate]. Qed.

Lemma watchCallback_not_count name this :
  is_count (_mutex this) = false ->
  watchCallback name this = (Ok (VPrim Undefined), mutex_add (-1) this).
Proof. unfold watchCallback. destruct (_mutex this); [reflexivity|reflexivity|discriminate]. Qed.

Lemma run_not_count name evs :
  forall this,
    Forall guarded evs -> is_count (_mutex this) = false ->
    is_count (_mutex (fst (run name evs this))) = false
    /\ (snd (run name evs this) + calls evs = length evs)%nat.
Proof.
  induction evs as [|ev evs IH]; intros this G H.
  - simpl. split; [exact H|reflexivity].
  - apply Forall_cons in G as [Gev G]. destruct ev as [f args|].
    + rewrite calls_Call. cbn [run length].
      destruct (IH (snd (wrapper f args this)) G) as [E L].
      * unfold wrapper. rewrite Gev, (mutex_add_not_count 1 this H). reflexivity.
      * split; [exact E|lia].
    + rewrite calls_Notify. cbn [run length].
      rewrite (watchCallback_not_count name this H).
      destruct (run name evs (mutex_add (-1) this)) as [final k] eqn:Er.
      destruct (IH (mutex_add (-1) this) G) as [E L].
      * rewrite (mutex_add_not_count (-1) this H). reflexivity.
      * rewrite Er in E, L. cbn [fst snd] in *. split; [exact E|lia].
Qed.

(** X20.  Once [_mutex] is not a number (it is absent on an instance built
    without the guard, and [+= 1] on it gives not-a-number), it never is one
    again, and [watchCallback] never raises: over any sequence of calls of
    wrapped functions and of notifications, every notification passes. *)
Theorem X20_counter_not_a_number :
  forall name evs this,
    Forall guarded evs ->
    is_count (_mutex this) = false ->
    is_count (_mutex (fst (run name evs this))) = false
    /\ (snd (run name evs this) + calls evs = length evs)%nat
    /\ fst (watchCallback name (fst (run name evs this))) = Ok (VPrim Undefined).
Proof.
  intros name evs this G H. destruct (run_not_count name evs this G H) as [E L].
  split; [exact E|]. split; [exact L|].
  rewrite (watchCallback_not_count name _ E). reflexivity.
Qed.

Lemma X20_witness :
  is_count (_mutex (fst (run "m" [Notify; Call setFirstName []; Notify] (Instance Absent []))))
  = false
  /\ (snd (run "m" [Notify; Call setFirstName []; Notify] (Instance Absent []))
      + calls [Notify; Call setFirstName []; Notify] = 3)%nat.
Proof.
  assert (G : Forall guarded [Notify; Call setFirstName []; Notify]).
  { repeat constructor; intros args this; reflexivity. }
  pose proof (X20_counter_not_a_number "m" [Notify; Call setFirstName []; Notify]
                (Instance Absent []) G eq_refl) as (H1 & H2 & _).
  split; [exact H1|exact H2].
Defined.

(** ** The store between calls *)

(** X21.  After any sequence of calls of wrapped functions and of
    notifications that started at counter [0], a further notification raises
    the immutability error, and leaves the instance as it is, exactly when
    every call has had its notification; while a call is still owed one, the
    notification passes. *)
Theorem X21_immutable_between_calls :
  forall name evs this,
    Forall guarded evs ->
    _mutex this = Count 0 ->
    (calls evs = snd (run name evs this) <->
     watchCallback name (fst (run name evs this))
     = (Err (Error (name +:+ " store is immutable! Updates must happen within a method or computed setter.")),
        fst (run name evs this)))
    /\ (calls evs <> snd (run name evs this) ->
        fst (watchCallback name (fst (run name evs this))) = Ok (VPrim Undefined)).
Proof.
  intros name evs this G H.
  destruct (run_counter name evs this 0 G H ltac:(lia)) as [E Hpos].
  destruct (watchCallback_cases name _ _ E) as (H0 & _ & Hp).
  split; [split|].
  - intros Hk. apply H0. lia.
  - intros Hw.
    destruct (Z.eq_dec (0 + Z.of_nat (calls evs) - Z.of_nat (snd (run name evs this))) 0)
      as [Hz|Hnz]; [lia|].
    rewrite (Hp ltac:(lia)) in Hw. discriminate.
  - intros Hne. rewrite (Hp ltac:(lia)). reflexivity.
Qed.

Lemma X21_witness :
  watchCallback "programmer"
    (fst (run "programmer" [Call setFirstName [VPrim (Str "Joe")]; Notify]
            (Instance (Count 0) [("firstName", VPrim (Str "Brian"))])))
  = (Err (Error "programmer store is immutable! Updates must happen within a method or computed setter."),
     fst (run "programmer" [Call setFirstName [VPrim (Str "Joe")]; Notify]
            (Instance (Count 0) [("firstName", VPrim (Str "Brian"))]))).
Proof.
  assert (G : Forall guarded [Call setFirstName [VPrim (Str "Joe")]; Notify]).
  { repeat constructor; intros args this; reflexivity. }
  exact (proj1 (proj1 (X21_immutable_between_calls "programmer"
                         [Call setFirstName [VPrim (Str "Joe")]; Notify]
                         (Instance (Count 0) [("firstName", VPrim (Str "Brian"))])
                         G eq_refl)) eq_refl).
Defined.

(** ** The path only feeds the messages *)

Lemma passes_bind {A B} (r r' : result A) (k k' : A -> result B) :
  passes r = passes r' ->
  (forall x y, r = Ok x -> r' = Ok y -> passes (k x) = passes (k' y)) ->
  passes (bind r k) = passes (bind r' k').
Proof.
  destruct r as [x|e], r' as [y|e']; simpl; intros H Hk; try discriminate;
    [apply Hk; reflexivity|reflexivity].
Qed.

Lemma passes_raise {A} (p : path_arg) (k : string -> exn) :
  passes (sp <- stringifyPath p ;; @Err A (k sp)) = false.
Proof. destruct (stringifyPath p); reflexivity. Qed.

Lemma forEach_from_passes {A} (f g : A -> nat -> result unit) (l : list A) :
  forall i,
    (forall x j, x ∈ l -> passes (f x j) = passes (g x j)) ->
    passes (forEach_from f l i) = passes (forEach_from g l i).
Proof.
  induction l as [|x l IH]; intros i H; [reflexivity|].
  change (forEach_from f (x :: l) i) with (f x i ;;; forEach_from f l (S i)).
  change (forEach_from g (x :: l) i) with (g x i ;;; forEach_from g l (S i)).
  apply passes_bind; [apply H, list_elem_of_here|].
  intros _ _ _ _. apply IH. intros y j Hy. apply H, list_elem_of_further, Hy.
Qed.

Lemma typeCheck_passes validator v p p' :
  (passes (apply validator v (Some p)) = passes (apply validator v (Some p'))
   /\ forall r r', apply validator v (Some p) = Ok r -> apply validator v (Some p') = Ok r' ->
                   truthy r = truthy r') ->
  passes (typeCheck v validator (Some p)) = passes (typeCheck v validator (Some p')).
Proof.
  intros [Hp Ht]. unfold typeCheck, typeCheck_with. fold apply.
  apply passes_bind; [exact Hp|]. intros r r' Hr Hr'. rewrite (Ht r r' Hr Hr').
  destruct (truthy r'); [reflexivity|]. rewrite !passes_raise. reflexivity.
Qed.

Lemma path_blind_passes s :
  path_blind s = true ->
  forall v p p',
    passes (deepTypeCheck v s (Some p)) = passes (deepTypeCheck v s (Some p'))
    /\ passes (typeCheck v s (Some p)) = passes (typeCheck v s (Some p')).
Proof.
  induction s as [p0|elems IH|entries IH|inner IH|f Hf] using schema_nullable_ind;
    intros B v p p'.
  - split; [|reflexivity].
    destruct (truthy_schema (SPrim p0)) eqn:T.
    + destruct (is_undefined v) eqn:Eu.
      * apply is_undefined_true in Eu as ->.
        rewrite !deepTypeCheck_undefined by exact T. rewrite !passes_raise. reflexivity.
      * simpl in T. transitivity (passes (@Err unit (HostTypeError NotAFunction))).
        -- simpl. rewrite T, Eu. reflexivity.
        -- simpl. rewrite T, Eu. reflexivity.
    + rewrite !deepTypeCheck_falsy by exact T. rewrite !passes_raise. reflexivity.
  - split; [|reflexivity].
    destruct (is_undefined v) eqn:Eu.
    { apply is_undefined_true in Eu as ->. rewrite !deepTypeCheck_undefined by reflexivity.
      rewrite !passes_raise. reflexivity. }
    destruct v as [pv|items|props];
      try (rewrite !deepTypeCheck_not_array by first [exact Eu|reflexivity];
           rewrite !passes_raise; reflexivity).
    destruct elems as [|s0 rest]; [reflexivity|].
    apply Forall_cons in IH as [IH0 _]. simpl in B. apply andb_true_iff in B as [B0 _].
    simpl.
    destruct (truthy_schema s0 && type_tag_eqb (typeof_schema s0) TObject).
    + apply forEach_from_passes. intros x j _. cbn [spread bind].
      apply (IH0 B0).
    + destruct (truthy_schema s0 && type_tag_eqb (typeof_schema s0) TFunction);
        [|reflexivity].
      apply forEach_from_passes. intros x j _. cbn [spread bind].
      apply (IH0 B0).
  - split; [|reflexivity]. rewrite !deepTypeCheck_obj_any.
    destruct (is_undefined v); [rewrite !passes_raise; reflexivity|].
    apply forEach_from_passes. intros [key sub] j Hin.
    destruct (get_prop v key) as [x|e]; [|reflexivity]. cbn [bind spread].
    destruct (isObject_schema sub && negb (isObject x)).
    + rewrite !passes_raise. reflexivity.
    + apply (proj1 (Forall_forall _ _) IH (key, sub) Hin).
      simpl in B. apply (proj1 (forallb_forall _ _) B (key, sub)).
      apply list_elem_of_In, Hin.
  - assert (T : passes (typeCheck v (SFun (maybeNull_schema_fn inner)) (Some p))
                = passes (typeCheck v (SFun (maybeNull_schema_fn inner)) (Some p'))).
    { apply typeCheck_passes.
      destruct (null_or_not v) as [->|Hv]; [split; [reflexivity|]|].
      - intros r r' [= <-] [= <-]. reflexivity.
      - rewrite !maybeNull_schema_call by exact Hv.
        pose proof (proj1 (IH B v p p')) as Hi.
        destruct (deepTypeCheck v inner (Some p)), (deepTypeCheck v inner (Some p'));
          try discriminate; split; try reflexivity.
        + intros r r' [= <-] [= <-]. reflexivity.
        + intros r r' [=]. }
    split; [|exact T]. rewrite !deepTypeCheck_fun.
    destruct (is_undefined v); [rewrite !passes_raise; reflexivity|exact T].
  - assert (T : passes (typeCheck v (SFun f) (Some p))
                = passes (typeCheck v (SFun f) (Some p'))).
    { apply typeCheck_passes.
      assert (E : apply (SFun f) v (Some p) = apply (SFun f) v (Some p')).
      { destruct f; try reflexivity; try discriminate.
        exfalso. eapply Hf. reflexivity. }
      rewrite E. split; [reflexivity|]. intros r r' -> [= ->]. reflexivity. }
    split; [|exact T]. rewrite !deepTypeCheck_fun.
    destruct (is_undefined v); [rewrite !passes_raise; reflexivity|exact T].
Qed.

(** X22.  On a schema with no validator written by the user where the path
    is handed on, whether [deepTypeCheck] returns or raises does not depend
    on the path it is given, as long as it is given one: the path only feeds
    the messages. *)
Theorem X22_path_only_feeds_messages :
  forall s v p p',
    path_blind s = true ->
    (deepTypeCheck v s (Some p) = Ok tt <-> deepTypeCheck v s (Some p') = Ok tt).
Proof.
  intros s v p p' B. pose proof (proj1 (path_blind_passes s B v p p')) as H.
  destruct (deepTypeCheck v s (Some p)) as [[]|e], (deepTypeCheck v s (Some p')) as [[]|e'];
    try discriminate; split; intros E; try reflexivity; discriminate.
Qed.

Lemma X22_witness :
  deepTypeCheck book_data book_schema (Some [Key "<book>"]) = Ok tt
  <-> deepTypeCheck book_data book_schema (Some []) = Ok tt.
Proof.
  apply (X22_path_only_feeds_messages book_schema book_data [Key "<book>"] []).
  reflexivity.
Defined.

(** ** Validators that never raise *)

Lemma plain_validator_total s :
  plain_validator s = true ->
  forall v path, exists b, apply s v path = Ok (VPrim (Bool b)).
Proof.
  induction s as [args IH|inner IH|s Hu Hn] using validator_ind; intros Hp v path.
  - change (SFun (union_fn args)) with (types.union args). rewrite union_call.
    destruct (some_total (fun arg => apply arg v None) args) as (b & -> & _); [|eauto].
    intros arg Hin. simpl in Hp.
    destruct (proj1 (Forall_forall _ _) IH arg Hin
                (proj1 (forallb_forall _ _) Hp arg (proj1 (list_elem_of_In _ _) Hin)) v None)
      as [b Hb].
    eauto.
  - simpl in Hp. change (apply (SFun (maybeNull_type_fn inner)) v path)
      with (if is_null v then Ok (VPrim (Bool true)) else apply inner v None).
    destruct (is_null v); [eauto|]. apply (IH Hp).
  - destruct s as [p|l|l|f]; try discriminate.
    destruct f; try discriminate; try (eexists; reflexivity).
    + exfalso. eapply Hn. reflexivity.
    + exfalso. eapply Hu. reflexivity.
Qed.


